(** * generate_video.py: the scene pipeline, its retry policy and its fallbacks

    A shallow embedding of [src/generate_video.py].  The script drives four
    scenes through an image stage, an animation stage (with a Ken Burns
    fallback), a caption stage, and a final concatenation.  Everything the
    script does not compute itself (the remote client, the file system, the
    media tool, the clock) is an [Env]: a deterministic transition system over
    an abstract [World].  Each stage function is a computation in a small
    state-and-exception monad that also records a trace of what it did.

    Conventions.
    - A Python [str] is a [string] holding its UTF-8 bytes; [bytes] is a
      [list Byte.byte]; an [int] is a [Z]; a [float] is a binary64 [float].
    - Only subclasses of [Exception] are modelled ([exn]); an [except
      Exception] clause therefore catches every [exn].
    - Progress messages are left out of the trace, except where evaluating
      the message can itself raise (the [e.stderr.decode()] of the media
      stages) and for the final report of [main]. *)

From stdpp Require Import base strings list gmap.
From Stdlib Require Import ZArith Lia Ascii String DecimalString.
From Stdlib Require Import PrimFloat FloatOps SpecFloat.

Open Scope Z_scope.

(** ** Python values *)

Definition nl : string := String (Ascii.ascii_of_nat 10) "".

(** A Python [bytes] value. *)
Abbreviation bytes := (list Byte.byte).

(** [str(n)] for an [int]. *)
Definition str_of_Z (z : Z) : string := NilZero.string_of_int (Z.to_int z).

(** [sub in s] for strings. *)
Fixpoint contains (sub s : string) : bool :=
  String.prefix sub s ||
  match s with
  | EmptyString => false
  | String _ s' => contains sub s'
  end.

(** [s.replace(c, by)] for a one-character pattern [c]. *)
Fixpoint replace_char (c : ascii) (by_ : string) (s : string) : string :=
  match s with
  | EmptyString => EmptyString
  | String a s' =>
      if Ascii.eqb a c then by_ +:+ replace_char c by_ s'
      else String a (replace_char c by_ s')
  end.

(** [range(n)]. *)
Definition range (n : Z) : list Z := map Z.of_nat (seq 0 (Z.to_nat n)).

(** ** Exceptions and results *)

Inductive exn : Type :=
| CalledProcessError (returncode : Z) (cmd : list string) (stderr : bytes)
| PyError (cls : string) (msg : string).

Inductive res (A : Type) : Type :=
| Ok (a : A)
| Exc (e : exn).
Arguments Ok {A} a.
Arguments Exc {A} e.

(** [int(x)] for a float: truncation toward zero; NaN and the infinities
    raise. *)
Definition int_of_float (x : float) : res Z :=
  match Prim2SF x with
  | S754_zero _ => Ok 0
  | S754_infinity _ =>
      Exc (PyError "OverflowError" "cannot convert float infinity to integer")
  | S754_nan =>
      Exc (PyError "ValueError" "cannot convert float NaN to integer")
  | S754_finite s m e =>
      let mag := if 0 <=? e then Z.pos m * 2 ^ e else Z.pos m / 2 ^ (- e) in
      Ok (if s then - mag else mag)
  end.

(** Strict UTF-8, as [bytes.decode()] checks it. *)
Definition in_range (lo hi b : Z) : bool := (lo <=? b) && (b <=? hi).

Fixpoint utf8_valid (bs : list Z) : bool :=
  match bs with
  | [] => true
  | b0 :: r0 =>
      if b0 <=? 127 then utf8_valid r0
      else if in_range 194 223 b0 then
        match r0 with
        | b1 :: r1 => in_range 128 191 b1 && utf8_valid r1
        | _ => false
        end
      else if in_range 224 239 b0 then
        match r0 with
        | b1 :: b2 :: r2 =>
            in_range (if b0 =? 224 then 160 else 128)
                     (if b0 =? 237 then 159 else 191) b1
            && in_range 128 191 b2 && utf8_valid r2
        | _ => false
        end
      else if in_range 240 244 b0 then
        match r0 with
        | b1 :: b2 :: b3 :: r3 =>
            in_range (if b0 =? 240 then 144 else 128)
                     (if b0 =? 244 then 143 else 191) b1
            && in_range 128 191 b2 && in_range 128 191 b3 && utf8_valid r3
        | _ => false
        end
      else false
  end.

(** [b.decode()]: the text of a UTF-8 byte string, or [UnicodeDecodeError]
    (whose message, which names the offending byte, is abbreviated here). *)
Definition decode (bs : bytes) : res string :=
  if utf8_valid (map (fun b => Z.of_N (Byte.to_N b)) bs)
  then Ok (string_of_list_byte bs)
  else Exc (PyError "UnicodeDecodeError" "'utf-8' codec can't decode byte").

(** What the interpreter provides for text and floats and the script only
    calls. *)
Class Runtime : Type := {
  str_of_float : float -> string;          (* str(x), and {x} in an f-string *)
  format_1f : float -> string;             (* {x:.1f} in an f-string *)
  float_of_str : string -> res float;      (* float(s) *)
  str_strip : string -> string;            (* s.strip() *)
  str_CalledProcessError : Z -> list string -> string
}.

(** [str(e)]. *)
Definition exn_str `{Runtime} (e : exn) : string :=
  match e with
  | CalledProcessError rc cmd _ => str_CalledProcessError rc cmd
  | PyError _ msg => msg
  end.

(** ** The environment *)

(** A [CompletedProcess] with captured output. *)
Record completed : Type := Completed {
  returncode : Z;
  stdout : bytes;
  stderr : bytes
}.

(** The handle of a long-running remote operation: done, with the generated
    videos of its response, or pending, with what [client.operations.get]
    answers next.  The type is inductive: a remote operation completes or
    fails after finitely many polls.  The polling loop of the source has no
    bound of its own; a handle that stays pending for ever, on which that
    loop would not end, is outside this model, and nothing below is meant
    to say that polling ends. *)
#[warnings="-register-all"]
Inductive operation (World video : Type) : Type :=
| OpDone (generated_videos : list video)
| OpPending (get : World -> World * res (operation World video)).
Arguments OpDone {World video} generated_videos.
Arguments OpPending {World video} get.

Class Env : Type := {
  World : Type;
  video : Type;
  (* str(OUTPUT_DIR) *)
  OUTPUT_DIR : string;
  (* find_api_key() *)
  find_api_key : World -> option string;
  (* Path(p).exists() *)
  path_exists : World -> string -> bool;
  (* client.models.generate_images(prompt=...).generated_images *)
  env_generate_images : string -> World -> World * res (list bytes);
  (* with open(p, 'wb') as f: f.write(data) *)
  env_write_bytes : string -> bytes -> World -> World * res unit;
  (* Path(p).read_bytes() *)
  env_read_bytes : string -> World -> World * res bytes;
  (* client.models.generate_videos(prompt=..., image=...) *)
  env_generate_videos :
    string -> bytes -> World -> World * res (operation World video);
  (* client.files.download(file=v) *)
  env_files_download : video -> World -> World * res unit;
  (* v.save(p) *)
  env_video_save : video -> string -> World -> World * res unit;
  (* subprocess.run(cmd, capture_output=True) *)
  env_subprocess_run : list string -> World -> World * res completed;
  (* with open(p, 'w') as f: f.write(text) *)
  env_write_text : string -> string -> World -> World * res unit;
  (* Path(p).unlink() *)
  env_unlink : string -> World -> World * res unit;
  (* time.sleep(secs) *)
  env_sleep : Z -> World -> World
}.

(** ** Traces *)

(** The calls of the five stage functions. *)
Inductive stage_call : Type :=
| CallGenerateImage (prompt output_path : string) (max_retries : Z)
| CallGenerateVideo (image_path prompt output_path : string) (max_retries : Z)
| CallOverlay (input_video output_video text : string)
| CallFallback (image_path output_video : string) (duration : float)
               (motion : string)
| CallConcat (video_files : list string) (output_video : string).

(** What a run does, in order.  [EvEnter] and [EvReturn] are ghost events
    marking the entry of a stage function and the value it returns. *)
Inductive event : Type :=
| EvEnter (c : stage_call)
| EvReturn (c : stage_call) (b : bool)
| EvGenerateImages (prompt : string)
| EvWriteBytes (path : string) (data : bytes)
| EvReadBytes (path : string)
| EvGenerateVideos (prompt : string) (image : bytes)
| EvOperationsGet
| EvFilesDownload
| EvVideoSave (path : string)
| EvRun (cmd : list string)
| EvWriteText (path text : string)
| EvUnlink (path : string)
| EvSleep (secs : Z)
| EvPrint (s : string).

(** ** The monad of stage computations *)

Section Monad.
Context `{E : Env}.

(** The outcome of a computation: the world it leaves, what it did, and the
    value it returned or the exception it raised. *)
Record out (A : Type) : Type := Out {
  out_world : World;
  out_trace : list event;
  out_res : res A
}.
Arguments Out {A} _ _ _.
Arguments out_world {A} _.
Arguments out_trace {A} _.
Arguments out_res {A} _.

Definition M (A : Type) : Type := World -> out A.

Definition ret {A} (a : A) : M A := fun w => Out w [] (Ok a).

Definition raise {A} (e : exn) : M A := fun w => Out w [] (Exc e).

Definition bind {A B} (m : M A) (f : A -> M B) : M B := fun w =>
  match m w with
  | Out w1 t1 (Ok a) =>
      match f a w1 with Out w2 t2 r => Out w2 (t1 ++ t2) r end
  | Out w1 t1 (Exc e) => Out w1 t1 (Exc e)
  end.

(** [try: m except Exception as e: h e]. *)
Definition try_except {A} (m : M A) (h : exn -> M A) : M A := fun w =>
  match m w with
  | Out w1 t1 (Exc e) =>
      match h e w1 with Out w2 t2 r => Out w2 (t1 ++ t2) r end
  | o => o
  end.

Definition lift_res {A} (r : res A) : M A := fun w => Out w [] r.

Definition emit (ev : event) : M unit := fun w => Out w [ev] (Ok tt).

(** A call into the environment, recorded as [ev]. *)
Definition call_env {A} (ev : event) (op : World -> World * res A) : M A :=
  fun w => let (w', r) := op w in Out w' [ev] r.

End Monad.

Arguments Out {E A} _ _ _.
Arguments out_world {E A} _.
Arguments out_trace {E A} _.
Arguments out_res {E A} _.

Declare Scope py_scope.
Delimit Scope py_scope with py.
Notation "x <- m ;; k" := (bind m (fun x => k))
  (at level 100, m at next level, k at level 200, right associativity)
  : py_scope.
Notation "m ;; k" := (bind m (fun _ => k))
  (at level 100, k at level 200, right associativity) : py_scope.
Open Scope py_scope.

(** ** The stage functions *)

Section Pipeline.
Context `{R : Runtime} `{E : Env}.

(** A stage function: its body between the two ghost events. *)
Definition stage (c : stage_call) (body : M bool) : M bool :=
  emit (EvEnter c) ;; b <- body ;; emit (EvReturn c b) ;; ret b.

Definition print (s : string) : M unit := emit (EvPrint s).
Definition sleep (secs : Z) : M unit :=
  call_env (EvSleep secs) (fun w => (env_sleep secs w, Ok tt)).
Definition exists_ (p : string) : M bool :=
  fun w => Out w [] (Ok (path_exists w p)).
Definition generate_images (prompt : string) : M (list bytes) :=
  call_env (EvGenerateImages prompt) (env_generate_images prompt).
Definition write_bytes (p : string) (data : bytes) : M unit :=
  call_env (EvWriteBytes p data) (env_write_bytes p data).
Definition read_bytes (p : string) : M bytes :=
  call_env (EvReadBytes p) (env_read_bytes p).
Definition generate_videos (prompt : string) (image : bytes)
  : M (operation World video) :=
  call_env (EvGenerateVideos prompt image) (env_generate_videos prompt image).
Definition files_download (v : video) : M unit :=
  call_env EvFilesDownload (env_files_download v).
Definition video_save (v : video) (p : string) : M unit :=
  call_env (EvVideoSave p) (env_video_save v p).
Definition write_text (p text : string) : M unit :=
  call_env (EvWriteText p text) (env_write_text p text).
Definition unlink (p : string) : M unit :=
  call_env (EvUnlink p) (env_unlink p).

(** [subprocess.run(cmd, capture_output=True)]. *)
Definition subprocess_run (cmd : list string) : M completed :=
  call_env (EvRun cmd) (env_subprocess_run cmd).

(** [subprocess.run(cmd, check=True, capture_output=True)]. *)
Definition subprocess_run_check (cmd : list string) : M completed :=
  result <- subprocess_run cmd ;;
  if returncode result =? 0 then ret result
  else raise (CalledProcessError (returncode result) cmd (stderr result)).

(** [subprocess.run(cmd, capture_output=True, text=True)]: return code and
    the decoded output streams (the locale encoding is taken to be UTF-8; a
    stream that does not decode makes [run] raise). *)
Definition subprocess_run_text (cmd : list string) : M (Z * string * string) :=
  result <- subprocess_run cmd ;;
  out_text <- lift_res (decode (stdout result)) ;;
  err_text <- lift_res (decode (stderr result)) ;;
  ret (returncode result, out_text, err_text).

(** [dir / name] for paths. *)
Definition path_join (dir name : string) : string := dir +:+ "/" +:+ name.

(** ** The image stage (lines 110-147) *)

Definition quota_error (error_str : string) : bool :=
  contains "429" error_str || contains "RESOURCE_EXHAUSTED" error_str.

Definition unavailable_error (error_str : string) : bool :=
  contains "503" error_str || contains "UNAVAILABLE" error_str.

(** The body of the [try]: [Some b] returns [b], [None] goes on to the next
    attempt. *)
Definition generate_image_try (prompt output_path : string)
  : M (option bool) :=
  response <- generate_images prompt ;;
  match response with
  | [] => ret None
  | generated_image :: _ =>
      write_bytes output_path generated_image ;; ret (Some true)
  end.

(** The [except] clause. *)
Definition generate_image_except (attempt max_retries : Z) (e : exn)
  : M (option bool) :=
  let error_str := exn_str e in
  if quota_error error_str then
    let wait_time := Z.min (2 ^ attempt * 10) 120 in
    sleep wait_time ;; ret None
  else if unavailable_error error_str then
    let wait_time := Z.min (2 ^ attempt * 5) 60 in
    sleep wait_time ;; ret None
  else if attempt =? max_retries - 1 then ret (Some false)
  else sleep 5 ;; ret None.

Fixpoint generate_image_loop (attempts : list Z)
    (prompt output_path : string) (max_retries : Z) : M bool :=
  match attempts with
  | [] => ret false
  | attempt :: rest =>
      r <- try_except (generate_image_try prompt output_path)
                      (generate_image_except attempt max_retries) ;;
      match r with
      | Some b => ret b
      | None => generate_image_loop rest prompt output_path max_retries
      end
  end.

Definition generate_image (prompt output_path : string) (max_retries : Z)
  : M bool :=
  stage (CallGenerateImage prompt output_path max_retries)
    (generate_image_loop (range max_retries) prompt output_path max_retries).

(** ** The animation stage (lines 150-215) *)

(** [while not operation.done: ...; time.sleep(10);
    operation = client.operations.get(operation)], then the generated videos
    of the response. *)
Fixpoint poll (operation_ : operation World video) : M (list video) :=
  match operation_ with
  | OpDone generated_videos => ret generated_videos
  | OpPending get => fun w =>
      let w0 := env_sleep 10 w in
      match get w0 with
      | (w1, Exc e) => Out w1 [EvSleep 10; EvOperationsGet] (Exc e)
      | (w1, Ok next) =>
          match poll next w1 with
          | Out w2 t r => Out w2 (EvSleep 10 :: EvOperationsGet :: t) r
          end
      end
  end.

Definition generate_video_try (image_path prompt output_path : string)
  : M (option bool) :=
  image_bytes <- read_bytes image_path ;;
  operation_ <- generate_videos prompt image_bytes ;;
  generated_videos <- poll operation_ ;;
  match generated_videos with
  | [] => raise (PyError "IndexError" "list index out of range")
  | generated_video :: _ =>
      files_download generated_video ;;
      video_save generated_video output_path ;;
      ret (Some true)
  end.

Definition generate_video_except (attempt max_retries : Z) (e : exn)
  : M (option bool) :=
  let error_str := exn_str e in
  if quota_error error_str then
    let wait_time := Z.min (2 ^ attempt * 30) 180 in
    sleep wait_time ;; ret None
  else if attempt =? max_retries - 1 then ret (Some false)
  else sleep 10 ;; ret None.

Fixpoint generate_video_loop (attempts : list Z)
    (image_path prompt output_path : string) (max_retries : Z) : M bool :=
  match attempts with
  | [] => ret false
  | attempt :: rest =>
      r <- try_except (generate_video_try image_path prompt output_path)
                      (generate_video_except attempt max_retries) ;;
      match r with
      | Some b => ret b
      | None =>
          generate_video_loop rest image_path prompt output_path max_retries
      end
  end.

Definition generate_video_from_image (image_path prompt output_path : string)
    (max_retries : Z) : M bool :=
  stage (CallGenerateVideo image_path prompt output_path max_retries)
    (generate_video_loop (range max_retries) image_path prompt output_path
       max_retries).

(** ** The caption stage (lines 218-278) *)

Definition FONT_SIZE : Z := 42.
Definition TEXT_Y_PERCENT : float := 0.25%float.

Definition font_options : list string :=
  [ "/System/Library/Fonts/Supplemental/Times New Roman.ttf";
    "/System/Library/Fonts/Times.ttc";
    "/System/Library/Fonts/NewYork.ttf";
    "/usr/share/fonts/truetype/dejavu/DejaVuSerif.ttf" ].

(** The first font that exists, or ["Times"]. *)
Fixpoint find_font (fonts : list string) : M string :=
  match fonts with
  | [] => ret "Times"
  | font :: rest =>
      found <- exists_ font ;;
      if found then ret font else find_font rest
  end.

Definition escape_text (text : string) : string :=
  replace_char "%" "\%"
    (replace_char ":" "\:"
       (replace_char "'" "'\''"
          (replace_char "\" "\\" text))).

Definition drawtext_filter (font_file escaped_text : string) : string :=
  let y_expr := "h*" +:+ str_of_float TEXT_Y_PERCENT in
  "drawtext=fontfile='" +:+ font_file +:+ "':" +:+
  "text='" +:+ escaped_text +:+ "':" +:+
  "fontsize=" +:+ str_of_Z FONT_SIZE +:+ ":" +:+
  "fontcolor=white:" +:+
  "borderw=2:" +:+
  "bordercolor=black@0.7:" +:+
  "shadowcolor=black@0.9:" +:+
  "shadowx=3:shadowy=3:" +:+
  "x=(w-text_w)/2:" +:+
  "y=" +:+ y_expr +:+ ":" +:+
  "line_spacing=12".

Definition overlay_cmd (input_video output_video filter : string)
  : list string :=
  [ "ffmpeg"; "-y";
    "-i"; input_video;
    "-vf"; filter;
    "-c:v"; "libx264";
    "-an";
    "-preset"; "medium";
    output_video ].

Definition add_text_overlay_to_video (input_video output_video text : string)
  : M bool :=
  stage (CallOverlay input_video output_video text)
    (let escaped_text := escape_text text in
     font_file <- find_font font_options ;;
     let cmd := overlay_cmd input_video output_video
                  (drawtext_filter font_file escaped_text) in
     try_except
       (result <- subprocess_run_text cmd ;;
        if negb (fst (fst result) =? 0) then ret false else ret true)
       (fun e => ret false)).

(** ** The fallback stage (lines 281-334) *)

(** The five branches of the [if] over [motion]; [frames] is the text of
    [int(duration*25)], which every branch evaluates. *)
Definition fallback_filter (motion frames : string) : string :=
  if String.eqb motion "slow zoom-in" then
    "[0:v]scale=8000:-1,zoompan=z='min(zoom+0.0003,1.12)':" +:+
    "d=" +:+ frames +:+ ":x='iw/2-(iw/zoom/2)':y='ih/2-(ih/zoom/2)':" +:+
    "s=720x1280,setsar=1[v]"
  else if String.eqb motion "slow outside-in drift" then
    "[0:v]scale=8000:-1,zoompan=z='min(zoom+0.0002,1.1)':" +:+
    "d=" +:+ frames +:+ ":x='if(eq(on,1),iw/4,x-0.3)':y='ih/2-(ih/zoom/2)':" +:+
    "s=720x1280,setsar=1[v]"
  else if String.eqb motion "slow follow" then
    "[0:v]scale=8000:-1,zoompan=z='1.08':" +:+
    "d=" +:+ frames +:+ ":x='if(eq(on,1),0,x+0.8)':y='ih/2-(ih/zoom/2)':" +:+
    "s=720x1280,setsar=1[v]"
  else if String.eqb motion "upward tilt" then
    "[0:v]scale=8000:-1,zoompan=z='1.1':" +:+
    "d=" +:+ frames +:+ ":x='iw/2-(iw/zoom/2)':y='if(eq(on,1),ih/3,y-0.6)':" +:+
    "s=720x1280,setsar=1[v]"
  else
    "[0:v]scale=8000:-1,zoompan=z='min(zoom+0.0003,1.1)':" +:+
    "d=" +:+ frames +:+ ":x='iw/2-(iw/zoom/2)':y='ih/2-(ih/zoom/2)':" +:+
    "s=720x1280,setsar=1[v]".

Definition fallback_cmd (image_path output_video filter_complex : string)
    (duration : float) : list string :=
  [ "ffmpeg"; "-y";
    "-loop"; "1";
    "-i"; image_path;
    "-filter_complex"; filter_complex;
    "-map"; "[v]";
    "-c:v"; "libx264";
    "-t"; str_of_float duration;
    "-pix_fmt"; "yuv420p";
    "-r"; "25";
    output_video ].

(** [try: m except subprocess.CalledProcessError as e: h e.stderr]: any
    other exception propagates. *)
Definition try_except_CalledProcessError {A} (m : M A) (h : bytes -> M A)
  : M A :=
  try_except m (fun e =>
    match e with
    | CalledProcessError _ _ stderr_ => h stderr_
    | _ => raise e
    end).

(** [print(f"  Error: {e.stderr.decode()}")]. *)
Definition print_stderr (stderr_ : bytes) : M unit :=
  text <- lift_res (decode stderr_) ;;
  print ("  Error: " +:+ text).

Definition create_fallback_video (image_path output_video : string)
    (duration : float) (motion : string) : M bool :=
  stage (CallFallback image_path output_video duration motion)
    (frames <- lift_res (int_of_float (duration * 25)%float) ;;
     let filter_complex := fallback_filter motion (str_of_Z frames) in
     let cmd := fallback_cmd image_path output_video filter_complex duration in
     try_except_CalledProcessError
       (subprocess_run_check cmd ;; ret true)
       (fun stderr_ => print_stderr stderr_ ;; ret false)).

(** ** The assembly stage (lines 337-359) *)

Definition concat_manifest (video_files : list string) : string :=
  fold_right (fun video_ acc => "file '" +:+ video_ +:+ "'" +:+ nl +:+ acc)
             "" video_files.

Definition concat_cmd (concat_file output_video : string) : list string :=
  [ "ffmpeg"; "-y";
    "-f"; "concat";
    "-safe"; "0";
    "-i"; concat_file;
    "-c"; "copy";
    output_video ].

Definition concatenate_videos (video_files : list string)
    (output_video : string) : M bool :=
  stage (CallConcat video_files output_video)
    (let concat_file := path_join OUTPUT_DIR "concat.txt" in
     write_text concat_file (concat_manifest video_files) ;;
     let cmd := concat_cmd concat_file output_video in
     try_except_CalledProcessError
       (subprocess_run_check cmd ;; unlink concat_file ;; ret true)
       (fun stderr_ => print_stderr stderr_ ;; ret false)).

(** ** Scenes (lines 29-79) *)

Record scene : Type := Scene {
  scene_id : Z;
  scene_text : string;
  scene_objective : string;
  scene_camera : string;
  scene_prompt : string
}.

Definition VAN_GOGH_STYLE : string :=
  "Traditional oil painting in Van Gogh post-impressionist style." +:+ nl +:+
  "Thick impasto brushstrokes with visible paint texture and canvas grain. Hand-painted aesthetic with organic imperfections." +:+ nl +:+
  "Rich color mixing on canvas - warm golden ochre and amber contrasting with Prussian blue and teal." +:+ nl +:+
  "Expressive brushwork like Starry Night. Natural color transitions, not digitally smooth." +:+ nl +:+
  "Dramatic chiaroscuro lighting. Emotional depth. Museum quality fine art. 9:16 vertical composition." +:+ nl +:+
  "NOT digital art, NOT 3D render, NOT photorealistic. Pure traditional painting aesthetic.".

Definition SCENES : list scene :=
  [ {| scene_id := 1;
       scene_text := "You are growing in ways" +:+ nl +:+ "your eyes can't see yet.";
       scene_objective := "Painterly mirror scene as she ties her hair.";
       scene_camera := "slow zoom-in";
       scene_prompt :=
         "A young woman with long dark hair tying her hair in front of an ornate vintage mirror in a warmly lit bedroom." +:+ nl +:+
         "Morning golden sunlight streaming through curtains creating dramatic rays. Her silhouette reflected in mirror." +:+ nl +:+
         "Warm amber and ochre tones contrasting with deep blue shadows. Visible brushstroke textures on walls and fabrics." +:+ nl +:+
         VAN_GOGH_STYLE |};
    {| scene_id := 2;
       scene_text := "Grace writes the parts of you" +:+ nl +:+ "discipline never could.";
       scene_objective := "Painterly café window shot with her writing gently.";
       scene_camera := "slow outside-in drift";
       scene_prompt :=
         "View through a rain-streaked café window at night. A young woman sits inside writing in a journal," +:+ nl +:+
         "illuminated by warm interior lamplight. Steam rising from coffee cup. Cool blue night outside contrasts with warm amber interior." +:+ nl +:+
         "Wet cobblestone street reflects lights. Bold brushstroke textures on glass and reflections." +:+ nl +:+
         VAN_GOGH_STYLE |};
    {| scene_id := 3;
       scene_text := "Every quiet yes becomes a doorway" +:+ nl +:+ "to who you're becoming.";
       scene_objective := "Painterly golden street walk, silhouette soft.";
       scene_camera := "slow follow";
       scene_prompt :=
         "A young woman walking alone on a tree-lined European street at golden hour sunset." +:+ nl +:+
         "Her silhouette backlit by intense orange sun creating long dramatic shadows on cobblestones." +:+ nl +:+
         "Autumn trees with swirling Van Gogh-style leaves in amber and gold. Deep blue sky above." +:+ nl +:+
         "Mediterranean architecture with warm stone buildings. Bold impasto brushwork throughout." +:+ nl +:+
         VAN_GOGH_STYLE |};
    {| scene_id := 4;
       scene_text := "You are not behind —" +:+ nl +:+ "your bloom is simply deliberate.";
       scene_objective := "Painterly mountain sunrise.";
       scene_camera := "upward tilt";
       scene_prompt :=
         "Majestic mountain landscape at sunrise with dramatic clouds. Snow-capped peaks catching first golden light." +:+ nl +:+
         "Layers of mountains in atmospheric perspective. Swirling Van Gogh sky with bold brushstrokes in orange, pink, and deep blue." +:+ nl +:+
         "Pine tree silhouettes in foreground. Mist in valleys. Expansive vista with emotional intensity." +:+ nl +:+
         VAN_GOGH_STYLE |} ].

(** ** The orchestrator (lines 362-465) *)

(** The two variables of [main] that the scene loop updates. *)
Record run_state : Type := RunState {
  scene_videos : list string;
  use_veo : bool
}.

Definition raw_image (s : scene) : string :=
  path_join OUTPUT_DIR ("scene_" +:+ str_of_Z (scene_id s) +:+ "_raw.png").
Definition raw_video (s : scene) : string :=
  path_join OUTPUT_DIR ("scene_" +:+ str_of_Z (scene_id s) +:+ "_raw.mp4").
Definition final_video (s : scene) : string :=
  path_join OUTPUT_DIR ("scene_" +:+ str_of_Z (scene_id s) +:+ ".mp4").

Definition animation_prompt (s : scene) : string :=
  "Gentle living painting animation like a Van Gogh artwork coming to life." +:+ nl +:+
  scene_camera s +:+ ". Subtle organic movement - brushstrokes seem to flow, colors breathe and shift naturally." +:+ nl +:+
  "Clouds drift with painted texture, light dances like in impressionist art. Maintain thick impasto oil painting look throughout." +:+ nl +:+
  "Movement should feel hand-animated, artistic, dreamlike. NOT realistic motion. 8 seconds of peaceful contemplation.".

(** Step 1 (lines 388-395): [false] is the [continue]. *)
Definition image_step (s : scene) : M bool :=
  present <- exists_ (raw_image s) ;;
  if negb present then generate_image (scene_prompt s) (raw_image s) 5
  else ret true.

(** Step 2, first half (lines 401-414): the animation stage, if it is
    still enabled and the video is not on disk.  The pair is
    [(video_created, use_veo)]. *)
Definition veo_attempt (s : scene) (use_veo_ : bool) : M (bool * bool) :=
  try_veo <- (if use_veo_
              then present <- exists_ (raw_video s) ;; ret (negb present)
              else ret false) ;;
  if try_veo : bool
  then video_created <-
         generate_video_from_image (raw_image s) (animation_prompt s)
           (raw_video s) 3 ;;
       if negb video_created then ret (video_created, false)
       else ret (video_created, use_veo_)
  else ret (false, use_veo_).

(** Step 2, second half (lines 416-424): the fallback stage, unless a
    video was created or is on disk.  The result is [video_created]. *)
Definition fallback_attempt (s : scene) (video_created : bool) : M bool :=
  try_fallback <- (if negb video_created
                   then present <- exists_ (raw_video s) ;; ret (negb present)
                   else ret false) ;;
  if try_fallback : bool
  then create_fallback_video (raw_image s) (raw_video s) 6.0%float
         (scene_camera s)
  else present <- exists_ (raw_video s) ;;
       if present then ret true else ret video_created.

(** Step 2 (lines 397-424): the pair is [(video_created, use_veo)]. *)
Definition video_step (s : scene) (use_veo_ : bool) : M (bool * bool) :=
  after_veo <- veo_attempt s use_veo_ ;;
  video_created <- fallback_attempt s (fst after_veo) ;;
  ret (video_created, snd after_veo).

(** Step 3 (lines 430-437): the list of contributions after the scene. *)
Definition caption_step (s : scene) (scene_videos_ : list string)
  : M (list string) :=
  captioned <- add_text_overlay_to_video (raw_video s) (final_video s)
                 (scene_text s) ;;
  if captioned then ret (scene_videos_ ++ [final_video s])
  else ret (scene_videos_ ++ [raw_video s]).

(** Steps 2 and 3 of a scene whose image is ready. *)
Definition scene_after_image (s : scene) (st : run_state) : M run_state :=
  step2 <- video_step s (use_veo st) ;;
  if negb (fst step2) then ret (RunState (scene_videos st) (snd step2))
  else
    scene_videos_ <- caption_step s (scene_videos st) ;;
    ret (RunState scene_videos_ (snd step2)).

(** The body of [for scene in SCENES]. *)
Definition process_scene (s : scene) (st : run_state) : M run_state :=
  image_ready <- image_step s ;;
  if negb image_ready then ret st
  else scene_after_image s st.

Fixpoint main_loop (scenes : list scene) (st : run_state) : M run_state :=
  match scenes with
  | [] => ret st
  | s :: rest => st' <- process_scene s st ;; main_loop rest st'
  end.

Fixpoint str_repeat (s : string) (n : nat) : string :=
  match n with
  | O => ""
  | S n' => s +:+ str_repeat s n'
  end.

Definition rule : string := str_repeat "=" 60.

Definition ffprobe_cmd (final_output : string) : list string :=
  [ "ffprobe"; "-v"; "quiet"; "-show_entries";
    "format=duration"; "-of"; "csv=p=0"; final_output ].

(** The final step (lines 439-465). *)
Definition final_assembly (scene_videos_ : list string) : M unit :=
  match scene_videos_ with
  | [] => print (nl +:+ "No scenes were successfully generated.")
  | _ :: _ =>
      print (nl +:+ rule) ;;
      print "FINAL ASSEMBLY" ;;
      print rule ;;
      let final_output := path_join OUTPUT_DIR "final_video.mp4" in
      print ("Concatenating " +:+
             str_of_Z (Z.of_nat (List.length scene_videos_)) +:+ " scenes...") ;;
      assembled <- concatenate_videos scene_videos_ final_output ;;
      if assembled then
        result <- subprocess_run_text (ffprobe_cmd final_output) ;;
        let stdout_ := str_strip (snd (fst result)) in
        duration <- (if String.eqb stdout_ "" then ret 0%float
                     else lift_res (float_of_str stdout_)) ;;
        print (nl +:+ rule) ;;
        print "SUCCESS!" ;;
        print ("Output: " +:+ final_output) ;;
        print ("Duration: " +:+ format_1f duration +:+ "s") ;;
        print rule
      else print "FAILED to concatenate videos"
  end.

(** How the process ends when no exception escapes: by falling off the end
    of [main], or by [sys.exit(code)]. *)
Inductive exit_status : Type :=
| Finished
| SysExit (code : Z).

(** Everything of [main] after the client is built: the scene loop over
    [scenes] and the final step. *)
Definition run_scenes (scenes : list scene) : M unit :=
  st <- main_loop scenes (RunState [] true) ;;
  final_assembly (scene_videos st).

(** [main]: without a credential ([if not api_key]) it exits with status
    1 before any scene; with one it builds the client, which stands for the
    environment here, and runs the scenes. *)
Definition main : M exit_status := fun w =>
  match find_api_key w with
  | None | Some EmptyString => Out w [] (Ok (SysExit 1))
  | Some _ => (run_scenes SCENES ;; ret Finished) w
  end.

End Pipeline.

(** ** A scripted environment

    A concrete [Runtime] and [Env] on which the pipeline can be run: the
    remote client answers from a script indexed by the number of calls made
    so far, the media tool is a function of its command line, and the file
    system is the set of paths that exist. *)

Module Example.

(** The decimal digits of [n / 10^k], written with all [k] fractional
    digits. *)
Fixpoint pad_left (n : nat) (s : string) : string :=
  match n with
  | O => s
  | S n' => if (String.length s <? S n')%nat
            then pad_left n' ("0" +:+ s) else s
  end.

Fixpoint strip_zeros_rev (s : list ascii) : list ascii :=
  match s with
  | c :: s' => if Ascii.eqb c "0" then strip_zeros_rev s' else s
  | [] => []
  end.

Definition strip_trailing_zeros (s : string) : string :=
  string_of_list_ascii (rev (strip_zeros_rev (rev (list_ascii_of_string s)))).

(** The exact decimal expansion of a float.  It is what [str] prints for a
    float whose expansion is short, such as [6.0] or [0.25]. *)
Definition exact_decimal (x : float) : string :=
  match Prim2SF x with
  | S754_zero s => if s then "-0.0" else "0.0"
  | S754_infinity s => if s then "-inf" else "inf"
  | S754_nan => "nan"
  | S754_finite s m e =>
      let sign := if s : bool then "-" else "" in
      if 0 <=? e then sign +:+ str_of_Z (Z.pos m * 2 ^ e) +:+ ".0"
      else
        let k := - e in
        let q := Z.pos m / 2 ^ k in
        let r := Z.pos m mod 2 ^ k in
        let frac := strip_trailing_zeros
                      (pad_left (Z.to_nat k) (str_of_Z (r * 5 ^ k))) in
        sign +:+ str_of_Z q +:+ "." +:+
        (if String.eqb frac "" then "0" else frac)
  end.

(** [x] rounded to one decimal, half to even. *)
Definition one_decimal (x : float) : string :=
  match Prim2SF x with
  | S754_zero s => if s then "-0.0" else "0.0"
  | S754_infinity s => if s then "-inf" else "inf"
  | S754_nan => "nan"
  | S754_finite s m e =>
      let sign := if s : bool then "-" else "" in
      let num := if 0 <=? e then Z.pos m * 2 ^ e * 10 else Z.pos m * 10 in
      let den := if 0 <=? e then 1 else 2 ^ (- e) in
      let q := num / den in
      let r := num mod den in
      let t := if (den <? 2 * r) || ((den =? 2 * r) && Z.odd q)
               then q + 1 else q in
      sign +:+ str_of_Z (t / 10) +:+ "." +:+ str_of_Z (t mod 10)
  end.

Definition digit_of (c : ascii) : option Z :=
  let n := Z.of_nat (nat_of_ascii c) in
  if (48 <=? n) && (n <=? 57) then Some (n - 48) else None.

(** The value of a string of digits, and the number of digits read. *)
Fixpoint digits_value (s : string) (acc : Z) (count : Z) : option (Z * Z) :=
  match s with
  | EmptyString => Some (acc, count)
  | String c s' =>
      match digit_of c with
      | Some d => digits_value s' (10 * acc + d) (count + 1)
      | None => None
      end
  end.

Fixpoint split_dot (s : string) : string * option string :=
  match s with
  | EmptyString => (EmptyString, None)
  | String c s' =>
      if Ascii.eqb c "." then (EmptyString, Some s')
      else let (a, b) := split_dot s' in (String c a, b)
  end.

Definition float_of_Z (z : Z) : float := of_uint63 (Uint63Axioms.of_Z z).

(** [float(s)] for an unsigned decimal numeral with fewer than sixteen
    digits, where one correctly rounded division gives the nearest float;
    anything else is rejected. *)
Definition parse_float (s : string) : res float :=
  let bad := Exc (PyError "ValueError"
                    ("could not convert string to float: '" +:+ s +:+ "'")) in
  let (int_part, frac_part) := split_dot s in
  let frac := match frac_part with Some f => f | None => EmptyString end in
  match digits_value (int_part +:+ frac) 0 0, digits_value frac 0 0 with
  | Some (n, len), Some (_, k) =>
      if (1 <=? len) && (len <=? 15)
      then Ok (float_of_Z n / float_of_Z (10 ^ k))%float
      else bad
  | _, _ => bad
  end.

Definition is_space (c : ascii) : bool :=
  let n := nat_of_ascii c in
  ((9 <=? n) && (n <=? 13) || (n =? 32))%nat.

Fixpoint lstrip (s : list ascii) : list ascii :=
  match s with
  | c :: s' => if is_space c then lstrip s' else s
  | [] => []
  end.

(** [s.strip()] for ASCII white space. *)
Definition strip (s : string) : string :=
  string_of_list_ascii
    (rev (lstrip (rev (lstrip (list_ascii_of_string s))))).

Definition quote_list (l : list string) : string :=
  "[" +:+
  fold_right (fun a acc =>
                "'" +:+ a +:+ "'" +:+
                (if String.eqb acc "" then "" else ", " +:+ acc)) "" l
  +:+ "]".

#[export] Instance runtime : Runtime := {|
  str_of_float := exact_decimal;
  format_1f := one_decimal;
  float_of_str := parse_float;
  str_strip := strip;
  str_CalledProcessError rc cmd :=
    "Command '" +:+ quote_list cmd +:+ "' returned non-zero exit status "
    +:+ str_of_Z rc +:+ "."
|}.

(** The world of the scripted environment. *)
Record world : Type := W {
  api_key : option string;
  files : gset string;
  (* the n-th answer of the text-to-image operation *)
  image_answer : nat -> res (list bytes);
  image_calls : nat;
  (* the n-th answer of the image-to-video operation: an error, or the
     number of polls after which it completes with one video *)
  video_answer : nat -> res nat;
  video_calls : nat;
  (* the media tool, by command line *)
  tool : list string -> res completed
}.

Definition with_files (w : world) (fs : gset string) : world :=
  W (api_key w) fs (image_answer w) (image_calls w)
    (video_answer w) (video_calls w) (tool w).

Definition create_file (p : string) (w : world) : world * res unit :=
  (with_files w ({[ p ]} ∪ files w), Ok tt).

Definition file_not_found (p : string) : exn :=
  PyError "FileNotFoundError"
    ("[Errno 2] No such file or directory: '" +:+ p +:+ "'").

(** An operation that completes after [n] polls with the video [0]. *)
Fixpoint pending (n : nat) : operation world nat :=
  match n with
  | O => OpDone [0%nat]
  | S n' => OpPending (fun w => (w, Ok (pending n')))
  end.

#[export] Instance env : Env := {|
  World := world;
  video := nat;
  OUTPUT_DIR := "output";
  find_api_key := api_key;
  path_exists w p := bool_decide (p ∈ files w);
  env_generate_images _ w :=
    (W (api_key w) (files w) (image_answer w) (S (image_calls w))
       (video_answer w) (video_calls w) (tool w),
     image_answer w (image_calls w));
  env_write_bytes p _ := create_file p;
  env_read_bytes p w :=
    (w, if bool_decide (p ∈ files w) then Ok [] else Exc (file_not_found p));
  env_generate_videos _ _ w :=
    (W (api_key w) (files w) (image_answer w) (image_calls w)
       (video_answer w) (S (video_calls w)) (tool w),
     match video_answer w (video_calls w) with
     | Ok n => Ok (pending n)
     | Exc e => Exc e
     end);
  env_files_download _ w := (w, Ok tt);
  env_video_save _ p := create_file p;
  env_subprocess_run cmd w :=
    match tool w cmd with
    | Ok c =>
        (if returncode c =? 0
         then with_files w ({[ List.last cmd "" ]} ∪ files w) else w, Ok c)
    | Exc e => (w, Exc e)
    end;
  env_write_text p _ := create_file p;
  env_unlink p w :=
    if bool_decide (p ∈ files w)
    then (with_files w (files w ∖ {[ p ]}), Ok tt)
    else (w, Exc (file_not_found p));
  env_sleep _ w := w
|}.

(** A tool that always exits with status 0 and prints [6.000000]. *)
Definition tool_ok (cmd : list string) : res completed :=
  Ok (Completed 0 (list_byte_of_string ("6.000000" +:+ nl)) []).

(** A world with an empty output directory in which everything succeeds:
    each image request returns one image, each animation completes after
    two polls. *)
Definition fresh : world :=
  W (Some "key") ∅ (fun _ => Ok [[Byte.x89]]) 0 (fun _ => Ok 2%nat) 0 tool_ok.

Definition quota_exceeded : exn :=
  PyError "ClientError"
    "429 RESOURCE_EXHAUSTED. You exceeded your current quota.".

Definition unavailable : exn :=
  PyError "ServerError" "503 UNAVAILABLE. The model is overloaded.".

Definition invalid_argument : exn :=
  PyError "ClientError" "400 INVALID_ARGUMENT. Request contains an invalid argument.".

(** The animation operation is out of quota, whenever it is called. *)
Definition quota_world : world :=
  W (Some "key") ∅ (fun _ => Ok [[Byte.x89]]) 0
    (fun _ => Exc quota_exceeded) 0 tool_ok.

(** The text-to-image operation is out of quota, whenever it is called. *)
Definition image_quota_world : world :=
  W (Some "key") ∅ (fun _ => Exc quota_exceeded) 0 (fun _ => Ok 2%nat) 0
    tool_ok.

(** As [quota_world], and the raw video of scene 2 is on disk already. *)
Definition quota_world_resumed : world :=
  with_files quota_world {[ "output/scene_2_raw.mp4" ]}.

(** Both remote operations are unavailable; the image of scene 1 is on
    disk. *)
Definition unavailable_world : world :=
  W (Some "key") {[ "output/scene_1_raw.png" ]}
    (fun _ => Exc unavailable) 0 (fun _ => Exc unavailable) 0 tool_ok.

(** The text-to-image operation answers with an empty array of images. *)
Definition empty_world : world :=
  W (Some "key") ∅ (fun _ => Ok []) 0 (fun _ => Ok 2%nat) 0 tool_ok.

(** The text-to-image operation rejects every request. *)
Definition rejecting_world : world :=
  W (Some "key") ∅ (fun _ => Exc invalid_argument) 0 (fun _ => Ok 2%nat) 0
    tool_ok.

(** The image of scene 1 is on disk. *)
Definition resumed_world : world :=
  with_files fresh {[ "output/scene_1_raw.png" ]}.

(** The media tool exits with status 1 and an error message that is not
    UTF-8 (the byte [0xff]). *)
Definition tool_garbled (cmd : list string) : res completed :=
  Ok (Completed 1 [] [Byte.xff]).

Definition garbled_world : world :=
  W (Some "key") ∅ (fun _ => Ok [[Byte.x89]]) 0 (fun _ => Ok 2%nat) 0
    tool_garbled.

(** The media tool is not installed. *)
Definition tool_missing (cmd : list string) : res completed :=
  Exc (file_not_found "ffmpeg").

Definition missing_tool_world : world :=
  W (Some "key") ∅ (fun _ => Ok [[Byte.x89]]) 0 (fun _ => Ok 2%nat) 0
    tool_missing.

(** The media tool fails on a caption command (one with [-vf]) and
    succeeds on every other. *)
Definition tool_no_captions (cmd : list string) : res completed :=
  if bool_decide ("-vf" ∈ cmd) then Ok (Completed 1 [] [])
  else tool_ok cmd.

Definition no_captions_world : world :=
  W (Some "key") ∅ (fun _ => Ok [[Byte.x89]]) 0 (fun _ => Ok 2%nat) 0
    tool_no_captions.

Definition scene_1 : scene := List.hd (Scene 0 "" "" "" "") SCENES.
Definition scene_2 : scene := List.nth 1 SCENES (Scene 0 "" "" "" "").

End Example.


(** * The vocabulary of the properties *)

(** The ghost events. *)
Definition is_ghost (ev : event) : bool :=
  match ev with
  | EvEnter _ | EvReturn _ _ => true
  | _ => false
  end.

(** A predicate on events that holds of the two ghost events of the call
    [c] and of every event that is not a ghost event. *)
Definition around (P : event -> Prop) (c : stage_call) : Prop :=
  P (EvEnter c) /\ (forall b, P (EvReturn c b)) /\
  (forall ev, is_ghost ev = false -> P ev).

(** The delay of the specification: [min(base * 2^a, cap)]. *)
Definition backoff (base cap a : Z) : Z := Z.min (base * 2 ^ a) cap.

(** The requested pauses of a trace, in order. *)
Definition sleeps (t : list event) : list Z :=
  omap (fun ev => match ev with EvSleep secs => Some secs | _ => None end) t.

(** The command lines a trace hands to the media tool, in order. *)
Definition commands_run (t : list event) : list (list string) :=
  omap (fun ev => match ev with EvRun cmd => Some cmd | _ => None end) t.

(** The four presets that [create_fallback_video] tests for. *)
Definition recognized (motion : string) : bool :=
  String.eqb motion "slow zoom-in"
  || String.eqb motion "slow outside-in drift"
  || String.eqb motion "slow follow"
  || String.eqb motion "upward tilt".

(** The filter graph shared by all branches: a zoom law [z], a frame count
    and the two pan laws, at the fixed scale and output size. *)
Definition zoompan_filter (z frames x y : string) : string :=
  "[0:v]scale=8000:-1,zoompan=z='" +:+ z +:+ "':d=" +:+ frames +:+
  ":x='" +:+ x +:+ "':y='" +:+ y +:+ "':s=720x1280,setsar=1[v]".

(** The centre-anchored linear zoom towards [cap]. *)
Definition zoom_in_filter (cap frames : string) : string :=
  zoompan_filter ("min(zoom+0.0003," +:+ cap +:+ ")") frames
    "iw/2-(iw/zoom/2)" "ih/2-(ih/zoom/2)".

Definition is_veo (c : stage_call) : bool :=
  match c with CallGenerateVideo _ _ _ _ => true | _ => false end.

(** The animation stage is entered. *)
Definition veo_enter (ev : event) : bool :=
  match ev with EvEnter c => is_veo c | _ => false end.

(** The animation stage returns [False]. *)
Definition veo_failure (ev : event) : bool :=
  match ev with EvReturn c false => is_veo c | _ => false end.

Definition no_veo (t : list event) : Prop :=
  Forall (fun ev => veo_enter ev = false) t.

Definition no_failure (t : list event) : Prop :=
  Forall (fun ev => veo_failure ev = false) t.

(** Nothing after a failure of the animation stage enters that stage. *)
Definition veo_monotone (t : list event) : Prop :=
  forall t1 ev t2, t = t1 ++ ev :: t2 -> veo_failure ev = true -> no_veo t2.

(** The invariant of the scene loop about the flag [use_veo]: [flag] is
    its value before the events [t], [flag'] its value after them, if the
    computation returned. *)
Definition veo_inv (flag : bool) (t : list event) (flag' : option bool)
  : Prop :=
  veo_monotone t
  /\ (flag = false -> no_veo t)
  /\ (flag' = Some true -> no_failure t /\ flag = true).

Definition flag_of {A} (proj : A -> bool) (r : res A) : option bool :=
  match r with Ok a => Some (proj a) | Exc _ => None end.

(** Events other than the ghost events of the animation stage. *)
Definition not_veo (ev : event) : Prop :=
  veo_enter ev = false /\ veo_failure ev = false.

(** The stage functions entered in a trace, by name and output path. *)
Definition stage_name (c : stage_call) : string * string :=
  match c with
  | CallGenerateImage _ output_path _ => ("generate_image", output_path)
  | CallGenerateVideo _ _ output_path _ =>
      ("generate_video_from_image", output_path)
  | CallOverlay _ output_video _ => ("add_text_overlay_to_video", output_video)
  | CallFallback _ output_video _ _ => ("create_fallback_video", output_video)
  | CallConcat _ output_video => ("concatenate_videos", output_video)
  end.

Definition entered (t : list event) : list (string * string) :=
  omap (fun ev => match ev with
                  | EvEnter c => Some (stage_name c)
                  | _ => None
                  end) t.

(** The results of the animation stage in a trace, by output path. *)
Definition veo_results (t : list event) : list (string * bool) :=
  omap (fun ev => match ev with
                  | EvReturn (CallGenerateVideo _ _ output_path _) b =>
                      Some (output_path, b)
                  | _ => None
                  end) t.

(** The first failure of the animation stage in a trace, with what comes
    before and after it. *)
Fixpoint split_failure (t : list event)
  : option (list event * event * list event) :=
  match t with
  | [] => None
  | ev :: t' =>
      if veo_failure ev then Some ([], ev, t')
      else match split_failure t' with
           | Some (t1, ev', t2) => Some (ev :: t1, ev', t2)
           | None => None
           end
  end.

Section Vocabulary.
Context `{E : Env}.

(** Every event of [m] satisfies [P], from any world. *)
Definition emits {A} (P : event -> Prop) (m : M A) : Prop :=
  forall w, Forall P (out_trace (m w)).

(** [m] returns a value, from any world: no exception escapes. *)
Definition total {A} (m : M A) : Prop :=
  forall w, exists a, out_res (m w) = Ok a.

(** A computation that enters and leaves no stage function. *)
Definition silent {A} (m : M A) : Prop :=
  emits (fun ev => is_ghost ev = false) m.

(** The four stage calls that [main] makes for a scene. *)
Definition call_image (s : scene) : stage_call :=
  CallGenerateImage (scene_prompt s) (raw_image s) 5.
Definition call_veo (s : scene) : stage_call :=
  CallGenerateVideo (raw_image s) (animation_prompt s) (raw_video s) 3.
Definition call_fallback (s : scene) : stage_call :=
  CallFallback (raw_image s) (raw_video s) 6.0%float (scene_camera s).
Definition call_overlay (s : scene) : stage_call :=
  CallOverlay (raw_video s) (final_video s) (scene_text s).

End Vocabulary.

(** * More vocabulary *)

(** The number of events of a trace that [f] selects. *)
Definition count (f : event -> bool) (t : list event) : nat :=
  List.length (List.filter f t).

Definition is_image_request (ev : event) : bool :=
  match ev with EvGenerateImages _ => true | _ => false end.

Definition is_video_request (ev : event) : bool :=
  match ev with EvGenerateVideos _ _ => true | _ => false end.

Definition is_sleep (ev : event) : bool :=
  match ev with EvSleep _ => true | _ => false end.

(** The pauses of the image stage when every attempt meets an error of
    one class: [quota] and [unavailable] say which markers the text of the
    error holds. *)
Definition image_schedule (quota unavailable : bool) (max_retries : Z)
  : list Z :=
  if quota then map (backoff 10 120) (range max_retries)
  else if unavailable then map (backoff 5 60) (range max_retries)
  else repeat 5 (Z.to_nat max_retries - 1).

Section MoreVocabulary.
Context `{E : Env}.

(** From any world, [m] emits at most [n] events that [f] selects. *)
Definition at_most {A} (f : event -> bool) (n : nat) (m : M A) : Prop :=
  forall w, (count f (out_trace (m w)) <= n)%nat.

End MoreVocabulary.

(** The escape of one character of a caption. *)
Definition escape_char (c : ascii) : string :=
  if Ascii.eqb c "\" then "\\"
  else if Ascii.eqb c "'" then "'\''"
  else if Ascii.eqb c ":" then "\:"
  else if Ascii.eqb c "%" then "\%"
  else String c "".

(** A string, character by character through [f]. *)
Fixpoint flat_map_string (f : ascii -> string) (s : string) : string :=
  match s with
  | EmptyString => EmptyString
  | String c s' => f c +:+ flat_map_string f s'
  end.

(** Whether [b.decode()] returns. *)
Definition decodes (bs : bytes) : bool :=
  utf8_valid (map (fun b => Z.of_N (Byte.to_N b)) bs).

(** The font that the caption stage picks in a world where [present] tells
    which paths exist. *)
Definition first_font (present : string -> bool) : string :=
  match List.find present font_options with
  | Some font => font
  | None => "Times"
  end.

(** The lists of contributions that a run over [scenes] can end with: in
    the order of the scenes, for each scene nothing, its captioned video or
    its raw video. *)
Inductive contributions `{E : Env} : list scene -> list string -> Prop :=
| contributions_nil : contributions [] []
| contributions_skip s scenes l :
    contributions scenes l -> contributions (s :: scenes) l
| contributions_final s scenes l :
    contributions scenes l -> contributions (s :: scenes) (final_video s :: l)
| contributions_raw s scenes l :
    contributions scenes l -> contributions (s :: scenes) (raw_video s :: l).

(** ** The credential lookup (lines 88-107) *)

(** The function whose result is [find_api_key] of an [Env], in full: the
    environment variable, then four candidate [.env] files in order. *)

Module Credential.

(** What iterating over an open text file gives: its lines, each with its
    line end, and then the end of the file or an exception. *)
Inductive lines : Type :=
| Eof
| Line (line : string) (rest : lines)
| ReadError (e : exn).

(** What the lookup reads of the machine. *)
Record host : Type := Host {
  (* os.getenv('GEMINI_API_KEY') *)
  getenv : option string;
  (* str(Path.home()) *)
  home : string;
  (* str(Path(__file__).parent) *)
  script_dir : string;
  (* Path(p).exists(), taken not to raise *)
  file_exists : string -> bool;
  (* open(p) *)
  open_file : string -> res lines
}.

Definition env_paths (h : host) : list string :=
  [ path_join (path_join (home h) ".claude") ".env";
    path_join (path_join (path_join (home h) ".claude") "skills") ".env";
    path_join
      (path_join (path_join (path_join (home h) ".claude") "skills")
         "ai-multimodal") ".env";
    path_join (path_join (script_dir h) ".claude") ".env" ].

Definition key_prefix : string := "GEMINI_API_KEY=".

(** [s.split(c, 1)[1]], when [c] occurs in [s]. *)
Fixpoint after_first (c : ascii) (s : string) : option string :=
  match s with
  | EmptyString => None
  | String a s' => if Ascii.eqb a c then Some s' else after_first c s'
  end.

(** The double and the single quote. *)
Definition quotes : list ascii := [Ascii.ascii_of_nat 34; Ascii.ascii_of_nat 39].

Fixpoint lstrip_chars (chars : list ascii) (s : list ascii) : list ascii :=
  match s with
  | c :: s' =>
      if existsb (Ascii.eqb c) chars then lstrip_chars chars s' else s
  | [] => []
  end.

(** [s.strip(chars)]. *)
Definition strip_chars (chars : list ascii) (s : string) : string :=
  string_of_list_ascii
    (rev (lstrip_chars chars
            (rev (lstrip_chars chars (list_ascii_of_string s))))).

Section Lookup.
Context `{R : Runtime}.

(** [line.split('=', 1)[1].strip().strip(...)] with both quotes as the
    characters to strip. *)
Definition key_of_line (line : string) : res string :=
  match after_first "=" line with
  | Some value => Ok (strip_chars quotes (str_strip value))
  | None => Exc (PyError "IndexError" "list index out of range")
  end.

(** [for line in f: if line.startswith('GEMINI_API_KEY='): return ...]:
    [Ok None] when the loop ends without a [return]. *)
Fixpoint scan_lines (f : lines) : res (option string) :=
  match f with
  | Eof => Ok None
  | ReadError e => Exc e
  | Line line rest =>
      if String.prefix key_prefix line
      then match key_of_line line with
           | Ok key => Ok (Some key)
           | Exc e => Exc e
           end
      else scan_lines rest
  end.

(** [for env_path in env_paths: if env_path.exists(): with open(env_path)
    as f: ...]. *)
Fixpoint scan_files (h : host) (paths : list string) : res (option string) :=
  match paths with
  | [] => Ok None
  | env_path :: rest =>
      if file_exists h env_path
      then match open_file h env_path with
           | Exc e => Exc e
           | Ok f =>
               match scan_lines f with
               | Ok None => scan_files h rest
               | found => found
               end
           end
      else scan_files h rest
  end.

Definition find_api_key (h : host) : res (option string) :=
  match getenv h with
  | Some (String c key) => Ok (Some (String c key))
  | _ => scan_files h (env_paths h)
  end.

End Lookup.

(** A file that can be read to its end and has no line of the key. *)
Fixpoint keyless (f : lines) : bool :=
  match f with
  | Eof => true
  | Line line rest => negb (String.prefix key_prefix line) && keyless rest
  | ReadError _ => false
  end.

(** A path that the lookup passes over: no file, or a file without the
    key. *)
Definition passed_over (h : host) (p : string) : Prop :=
  file_exists h p = false \/
  exists f, open_file h p = Ok f /\ keyless f = true.

(** The lines [ls], then [f]. *)
Fixpoint lines_app (ls : list string) (f : lines) : lines :=
  match ls with
  | [] => f
  | l :: ls' => Line l (lines_app ls' f)
  end.

End Credential.

(** ** More of the scripted environment *)

Module Cases.
Import Example.

(** As [Example.env], but saving a video creates the file and then fails:
    the disk is full. *)
Definition disk_full : exn :=
  PyError "OSError" "[Errno 28] No space left on device".

Definition env_disk_full : Env := {|
  World := world;
  video := nat;
  OUTPUT_DIR := "output";
  find_api_key := api_key;
  path_exists := path_exists (Env := env);
  env_generate_images := env_generate_images (Env := env);
  env_write_bytes := env_write_bytes (Env := env);
  env_read_bytes := env_read_bytes (Env := env);
  env_generate_videos := env_generate_videos (Env := env);
  env_files_download := env_files_download (Env := env);
  env_video_save _ p w := (fst (create_file p w), Exc disk_full);
  env_subprocess_run := env_subprocess_run (Env := env);
  env_write_text := env_write_text (Env := env);
  env_unlink := env_unlink (Env := env);
  env_sleep := env_sleep (Env := env)
|}.

(** The image and the raw video of scene 1 are on disk. *)
Definition video_resumed_world : world :=
  with_files fresh
    ({[ "output/scene_1_raw.png" ]} ∪ {[ "output/scene_1_raw.mp4" ]}).

(** The animation flag is down from the start; the media tool fails on
    every command. *)
Definition tool_failing (cmd : list string) : res completed :=
  Ok (Completed 1 [] (list_byte_of_string "Invalid argument")).

Definition failing_tool_world : world :=
  W (Some "key") {[ "output/scene_1_raw.png" ]} (fun _ => Ok [[Byte.x89]]) 0
    (fun _ => Ok 2%nat) 0 tool_failing.

(** The probe fails on every file and prints nothing on its standard
    output; every other command succeeds. *)
Definition tool_no_probe (cmd : list string) : res completed :=
  if bool_decide ("ffprobe" ∈ cmd)
  then Ok (Completed 1 [] (list_byte_of_string "Invalid data"))
  else tool_ok cmd.

Definition no_probe_world : world :=
  W (Some "key") ∅ (fun _ => Ok [[Byte.x89]]) 0 (fun _ => Ok 2%nat) 0
    tool_no_probe.

(** A machine without the environment variable, whose second candidate
    file holds the key in double quotes after a comment line. *)
Definition quote : string := String (Ascii.ascii_of_nat 34) "".

Definition host_with_file : Credential.host :=
  Credential.Host None "/home/u" "/srv/app"
    (fun p => String.eqb p "/home/u/.claude/skills/.env")
    (fun p =>
       Ok (Credential.Line ("# keys" +:+ nl)
             (Credential.Line
                ("GEMINI_API_KEY=" +:+ quote +:+ "abc123" +:+ quote +:+ nl)
                (Credential.Line ("GEMINI_API_KEY=later" +:+ nl)
                   Credential.Eof)))).

(** A machine with an empty environment variable and no candidate file. *)
Definition host_bare : Credential.host :=
  Credential.Host (Some "") "/home/u" "/srv/app" (fun _ => false)
    (fun p => Exc (file_not_found p)).

(** A machine whose first candidate file exists and cannot be opened, and
    whose last candidate file holds a key. *)
Definition host_unreadable : Credential.host :=
  Credential.Host None "/home/u" "/srv/app"
    (fun p => String.eqb p "/home/u/.claude/.env"
              || String.eqb p "/srv/app/.claude/.env")
    (fun p =>
       if String.eqb p "/home/u/.claude/.env"
       then Exc (PyError "PermissionError"
                   "[Errno 13] Permission denied: '/home/u/.claude/.env'")
       else Ok (Credential.Line ("GEMINI_API_KEY=abc123" +:+ nl)
                  Credential.Eof)).

End Cases.

(** The entries of the assembly stage. *)
Definition is_assembly (ev : event) : bool :=
  match ev with EvEnter (CallConcat _ _) => true | _ => false end.

Section Polling.
Context `{E : Env}.

(** [answers op w k w' r]: queried from the world [w], with a pause of ten
    seconds before every status query, the handle [op] takes [k] queries
    until one finds it done, with the videos [r], or raises, with the
    exception [r]; [w'] is the world then. *)
Inductive answers
  : operation World video -> World -> nat -> World -> res (list video)
    -> Prop :=
| answers_done generated_videos w :
    answers (OpDone generated_videos) w 0 w (Ok generated_videos)
| answers_raise get w w1 e :
    get (env_sleep 10 w) = (w1, Exc e) ->
    answers (OpPending get) w 1 w1 (Exc e)
| answers_pending get w w1 next k w2 r :
    get (env_sleep 10 w) = (w1, Ok next) ->
    answers next w1 k w2 r ->
    answers (OpPending get) w (S k) w2 r.

End Polling.

(** * Properties *)

(** ** Reasoning about computations *)

Section Logic.
Context `{E : Env}.

Lemma bind_ok {A B} (m : M A) (f : A -> M B) w w1 t1 a :
  m w = Out w1 t1 (Ok a) ->
  bind m f w
  = Out (out_world (f a w1)) (t1 ++ out_trace (f a w1)) (out_res (f a w1)).
Proof. intros Hm. unfold bind. rewrite Hm. now destruct (f a w1). Qed.

Lemma bind_exc {A B} (m : M A) (f : A -> M B) w w1 t1 e :
  m w = Out w1 t1 (Exc e) -> bind m f w = Out w1 t1 (Exc e).
Proof. intros Hm. unfold bind. now rewrite Hm. Qed.

Lemma bind_ret_l {A B} (a : A) (f : A -> M B) w : bind (ret a) f w = f a w.
Proof. unfold bind, ret. now destruct (f a w). Qed.

Lemma try_except_ok {A} (m : M A) h w w1 t1 a :
  m w = Out w1 t1 (Ok a) -> try_except m h w = Out w1 t1 (Ok a).
Proof. intros Hm. unfold try_except. now rewrite Hm. Qed.

Lemma try_except_exc {A} (m : M A) h w w1 t1 e :
  m w = Out w1 t1 (Exc e) ->
  try_except m h w
  = Out (out_world (h e w1)) (t1 ++ out_trace (h e w1)) (out_res (h e w1)).
Proof. intros Hm. unfold try_except. rewrite Hm. now destruct (h e w1). Qed.

Lemma emits_ret {A} P (a : A) : emits P (ret a).
Proof. intros w. constructor. Qed.

Lemma emits_raise {A} P e : emits P (raise (A:=A) e).
Proof. intros w. constructor. Qed.

Lemma emits_lift_res {A} P (r : res A) : emits P (lift_res r).
Proof. intros w. constructor. Qed.

Lemma emits_emit P ev : P ev -> emits P (emit ev).
Proof. intros H w. simpl. auto. Qed.

Lemma emits_call_env {A} P ev (op : World -> World * res A) :
  P ev -> emits P (call_env ev op).
Proof. intros H w. unfold call_env. destruct (op w). simpl. auto. Qed.

Lemma emits_bind {A B} P (m : M A) (f : A -> M B) :
  emits P m -> (forall a, emits P (f a)) -> emits P (bind m f).
Proof.
  intros Hm Hf w. specialize (Hm w).
  destruct (m w) as [w1 t1 [a|e]] eqn:Hmw.
  - rewrite (bind_ok _ _ _ _ _ _ Hmw). simpl in *.
    apply Forall_app. split; [assumption | apply Hf].
  - rewrite (bind_exc _ _ _ _ _ _ Hmw). assumption.
Qed.

Lemma emits_try_except {A} P (m : M A) h :
  emits P m -> (forall e, emits P (h e)) -> emits P (try_except m h).
Proof.
  intros Hm Hh w. specialize (Hm w).
  destruct (m w) as [w1 t1 [a|e]] eqn:Hmw.
  - rewrite (try_except_ok _ _ _ _ _ _ Hmw). assumption.
  - rewrite (try_except_exc _ _ _ _ _ _ Hmw). simpl in *.
    apply Forall_app. split; [assumption | apply Hh].
Qed.

Lemma emits_impl {A} (P Q : event -> Prop) (m : M A) :
  (forall ev, P ev -> Q ev) -> emits P m -> emits Q m.
Proof. intros HPQ Hm w. eapply Forall_impl; [apply Hm | exact HPQ]. Qed.

Lemma total_ret {A} (a : A) : total (ret a).
Proof. intros w. now exists a. Qed.

Lemma total_emit ev : total (emit ev).
Proof. intros w. now exists tt. Qed.

Lemma total_bind {A B} (m : M A) (f : A -> M B) :
  total m -> (forall a, total (f a)) -> total (bind m f).
Proof.
  intros Hm Hf w. destruct (Hm w) as [a Ha].
  destruct (m w) as [w1 t1 r] eqn:Hmw. simpl in Ha. subst r.
  rewrite (bind_ok _ _ _ _ _ _ Hmw). simpl. apply Hf.
Qed.

Lemma total_try_except {A} (m : M A) h :
  (forall e, total (h e)) -> total (try_except m h).
Proof.
  intros Hh w. destruct (m w) as [w1 t1 [a|e]] eqn:Hmw.
  - rewrite (try_except_ok _ _ _ _ _ _ Hmw). now exists a.
  - rewrite (try_except_exc _ _ _ _ _ _ Hmw). simpl. apply Hh.
Qed.

(** The outcome of a stage function, from the outcome of its body. *)
Lemma stage_run c body w :
  stage c body w =
  match body w with
  | Out w1 t (Ok b) => Out w1 (EvEnter c :: t ++ [EvReturn c b]) (Ok b)
  | Out w1 t (Exc e) => Out w1 (EvEnter c :: t) (Exc e)
  end.
Proof.
  unfold stage, bind, emit, ret.
  destruct (body w) as [w1 t [b|e]]; reflexivity.
Qed.

Lemma emits_stage P c body :
  P (EvEnter c) -> (forall b, P (EvReturn c b)) -> emits P body ->
  emits P (stage c body).
Proof.
  intros He Hr Hb w. rewrite stage_run. specialize (Hb w).
  destruct (body w) as [w1 t [b|e]]; simpl in *.
  - constructor; [assumption|]. apply Forall_app. split; auto.
  - constructor; assumption.
Qed.

(** What follows the call of a stage function follows its entry. *)
Lemma bind_stage_first {A} c body (k : bool -> M A) w :
  exists t, out_trace (bind (stage c body) k w) = EvEnter c :: t.
Proof.
  pose proof (stage_run c body w) as Hrun.
  destruct (body w) as [w1 t [b|e]].
  - rewrite (bind_ok _ _ _ _ _ _ Hrun). now eexists.
  - rewrite (bind_exc _ _ _ _ _ _ Hrun). now eexists.
Qed.

Lemma total_stage c body : total body -> total (stage c body).
Proof.
  intros Hb w. rewrite stage_run. destruct (Hb w) as [b Hbw].
  destruct (body w) as [w1 t r]. simpl in Hbw. subst r. now exists b.
Qed.

Lemma emits_exists_ P p : emits P (exists_ p).
Proof. intros w. constructor. Qed.

Lemma total_exists_ p : total (exists_ p).
Proof. intros w. now eexists. Qed.

Lemma total_call_env_sleep ev secs :
  total (call_env ev (fun w => (env_sleep secs w, Ok tt))).
Proof. intros w. now exists tt. Qed.

Lemma bind_assoc {A B C} (m : M A) (f : A -> M B) (g : B -> M C) w :
  bind (bind m f) g w = bind m (fun a => bind (f a) g) w.
Proof.
  unfold bind. destruct (m w) as [w1 t1 [a|e]]; [|reflexivity].
  destruct (f a w1) as [w2 t2 [b|e]]; [|reflexivity].
  destruct (g b w2) as [w3 t3 r]. now rewrite app_assoc.
Qed.

Lemma bind_exists_ {A} p (f : bool -> M A) w :
  bind (exists_ p) f w = f (path_exists w p) w.
Proof. unfold bind, exists_. now destruct (f (path_exists w p) w). Qed.

End Logic.

Ltac prim :=
  unfold sleep, print, generate_images, write_bytes, read_bytes,
    generate_videos, files_download, video_save, write_text, unlink,
    subprocess_run.

(** Splits an [emits] goal along the structure of the computation. *)
Ltac emits_tac :=
  repeat first
    [ assumption
    | match goal with H : forall _, emits _ _ |- emits _ _ => apply H end
    | apply emits_ret | apply emits_raise | apply emits_lift_res
    | apply emits_exists_
    | apply emits_bind | apply emits_try_except
    | apply emits_call_env;
      first [reflexivity | assumption | solve [auto] | solve [repeat split]]
    | apply emits_emit;
      first [reflexivity | assumption | solve [auto] | solve [repeat split]]
    | match goal with
      | |- forall _, emits _ _ => intro
      | |- emits _ (if ?b then _ else _) => destruct b
      | |- emits _ (match ?x with _ => _ end) => destruct x
      | |- emits _ (let _ := _ in _) => cbv zeta
      end ].

Ltac total_tac :=
  repeat first
    [ assumption
    | match goal with H : forall _, total _ |- total _ => apply H end
    | apply total_ret | apply total_emit | apply total_call_env_sleep
    | apply total_exists_
    | apply total_bind | apply total_try_except
    | match goal with
      | |- forall _, total _ => intro
      | |- total (if ?b then _ else _) => destruct b
      | |- total (match ?x with _ => _ end) => destruct x
      | |- total (let _ := _ in _) => cbv zeta
      end ].


(** ** What the stage functions emit, and which of them always return *)

Section Stages.
Context `{R : Runtime} `{E : Env}.

Lemma silent_generate_image_loop attempts prompt output_path max_retries :
  silent (generate_image_loop attempts prompt output_path max_retries).
Proof.
  unfold silent. induction attempts as [|attempt rest IH]; simpl.
  - apply emits_ret.
  - unfold generate_image_try, generate_image_except. prim. emits_tac.
Qed.

Lemma total_generate_image_loop attempts prompt output_path max_retries :
  total (generate_image_loop attempts prompt output_path max_retries).
Proof.
  induction attempts as [|attempt rest IH]; simpl.
  - apply total_ret.
  - unfold generate_image_except. total_tac.
Qed.

Lemma silent_poll (operation_ : operation World video) : silent (poll operation_).
Proof.
  unfold silent, emits. revert operation_.
  fix IH 1. intros [generated_videos|get] w; simpl.
  - constructor.
  - destruct (get (env_sleep 10 w)) as [w1 [next|e]]; simpl.
    + specialize (IH next w1). destruct (poll next w1) as [w2 t r]. simpl in *.
      repeat constructor. assumption.
    + repeat constructor.
Qed.

Lemma silent_generate_video_loop attempts image_path prompt output_path
    max_retries :
  silent (generate_video_loop attempts image_path prompt output_path
            max_retries).
Proof.
  unfold silent. induction attempts as [|attempt rest IH]; simpl.
  - apply emits_ret.
  - unfold generate_video_try, generate_video_except. prim.
    pose proof silent_poll as Hpoll. unfold silent in Hpoll.
    emits_tac.
Qed.

Lemma total_generate_video_loop attempts image_path prompt output_path
    max_retries :
  total (generate_video_loop attempts image_path prompt output_path
           max_retries).
Proof.
  induction attempts as [|attempt rest IH]; simpl.
  - apply total_ret.
  - unfold generate_video_except. total_tac.
Qed.

Lemma silent_find_font fonts : silent (find_font fonts).
Proof.
  unfold silent. induction fonts as [|font rest IH]; simpl; emits_tac.
Qed.

Lemma total_find_font fonts : total (find_font fonts).
Proof. induction fonts as [|font rest IH]; simpl; total_tac. Qed.

Lemma silent_subprocess_run_check cmd : silent (subprocess_run_check cmd).
Proof. unfold silent, subprocess_run_check. prim. emits_tac. Qed.

Lemma silent_subprocess_run_text cmd : silent (subprocess_run_text cmd).
Proof. unfold silent, subprocess_run_text. prim. emits_tac. Qed.

Lemma silent_print_stderr stderr_ : silent (print_stderr stderr_).
Proof. unfold silent, print_stderr. prim. emits_tac. Qed.

Lemma emits_around P c body :
  around P c -> silent body -> emits P (stage c body).
Proof.
  intros (He & Hr & Hq) Hb. apply emits_stage; auto.
  eapply emits_impl; [exact Hq | exact Hb].
Qed.

Lemma emits_generate_image P prompt output_path max_retries :
  around P (CallGenerateImage prompt output_path max_retries) ->
  emits P (generate_image prompt output_path max_retries).
Proof.
  intros H. apply emits_around; [exact H|].
  apply silent_generate_image_loop.
Qed.

Lemma emits_generate_video_from_image P image_path prompt output_path
    max_retries :
  around P (CallGenerateVideo image_path prompt output_path max_retries) ->
  emits P (generate_video_from_image image_path prompt output_path
             max_retries).
Proof.
  intros H. apply emits_around; [exact H|].
  apply silent_generate_video_loop.
Qed.

Lemma emits_add_text_overlay_to_video P input_video output_video text :
  around P (CallOverlay input_video output_video text) ->
  emits P (add_text_overlay_to_video input_video output_video text).
Proof.
  intros H. apply emits_around; [exact H|].
  pose proof silent_find_font as Hf.
  pose proof silent_subprocess_run_text as Hr.
  unfold silent in *. emits_tac.
Qed.

Lemma emits_create_fallback_video P image_path output_video duration motion :
  around P (CallFallback image_path output_video duration motion) ->
  emits P (create_fallback_video image_path output_video duration motion).
Proof.
  intros H. apply emits_around; [exact H|].
  pose proof silent_subprocess_run_check as Hc.
  pose proof silent_print_stderr as Hp.
  unfold silent, try_except_CalledProcessError in *. emits_tac.
Qed.

Lemma emits_concatenate_videos P video_files output_video :
  around P (CallConcat video_files output_video) ->
  emits P (concatenate_videos video_files output_video).
Proof.
  intros H. apply emits_around; [exact H|].
  pose proof silent_subprocess_run_check as Hc.
  pose proof silent_print_stderr as Hp.
  unfold silent, try_except_CalledProcessError in *. prim. emits_tac.
Qed.

(** The image, animation and caption stages let no exception escape. *)
Lemma total_generate_image prompt output_path max_retries :
  total (generate_image prompt output_path max_retries).
Proof. apply total_stage, total_generate_image_loop. Qed.

Lemma total_generate_video_from_image image_path prompt output_path
    max_retries :
  total (generate_video_from_image image_path prompt output_path max_retries).
Proof. apply total_stage, total_generate_video_loop. Qed.

Lemma total_add_text_overlay_to_video input_video output_video text :
  total (add_text_overlay_to_video input_video output_video text).
Proof.
  apply total_stage. pose proof total_find_font as Hf. total_tac.
Qed.

End Stages.

(** ** The retry policy of the two remote stages *)

Section Retry.
Context `{R : Runtime} `{E : Env}.

Lemma backoff_mono base cap (a b : nat) :
  0 <= base -> (a <= b)%nat ->
  backoff base cap (Z.of_nat a) <= backoff base cap (Z.of_nat b).
Proof.
  intros Hbase Hab. unfold backoff.
  apply Z.min_le_compat_r, Z.mul_le_mono_nonneg_l; [assumption|].
  apply Z.pow_le_mono_r; lia.
Qed.

Lemma sleep_then_continue secs w :
  (sleep secs ;; ret (None : option bool)) w
  = Out (env_sleep secs w) [EvSleep secs] (Ok None).
Proof. reflexivity. Qed.

(** C4: after a quota or rate-limit error at attempt [a], the image stage
    waits [min(10 * 2^a, 120)] seconds and the animation stage
    [min(30 * 2^a, 180)] seconds before the next attempt; both delays never
    decrease as [a] grows and never exceed their cap. *)
Theorem quota_backoff_delay (a : nat) (max_retries : Z) (e : exn) (w : World) :
  quota_error (exn_str e) = true ->
  generate_image_except (Z.of_nat a) max_retries e w
    = Out (env_sleep (backoff 10 120 (Z.of_nat a)) w)
          [EvSleep (backoff 10 120 (Z.of_nat a))] (Ok None)
  /\ generate_video_except (Z.of_nat a) max_retries e w
    = Out (env_sleep (backoff 30 180 (Z.of_nat a)) w)
          [EvSleep (backoff 30 180 (Z.of_nat a))] (Ok None)
  /\ (forall b : nat, (a <= b)%nat ->
        backoff 10 120 (Z.of_nat a) <= backoff 10 120 (Z.of_nat b) <= 120
        /\ backoff 30 180 (Z.of_nat a) <= backoff 30 180 (Z.of_nat b) <= 180).
Proof.
  intros Hq. unfold generate_image_except, generate_video_except.
  rewrite Hq. cbv zeta. rewrite !sleep_then_continue.
  unfold backoff. rewrite (Z.mul_comm (2 ^ Z.of_nat a) 10).
  rewrite (Z.mul_comm (2 ^ Z.of_nat a) 30).
  repeat split; try (apply backoff_mono; [lia | assumption]);
    apply Z.le_min_r.
Qed.

(** The [except] clause of the animation stage knows two classes only: a
    quota error, and everything else. *)
Lemma generate_video_except_cases attempt max_retries e w :
  generate_video_except attempt max_retries e w =
  if quota_error (exn_str e)
  then Out (env_sleep (backoff 30 180 attempt) w)
           [EvSleep (backoff 30 180 attempt)] (Ok None)
  else if attempt =? max_retries - 1 then Out w [] (Ok (Some false))
  else Out (env_sleep 10 w) [EvSleep 10] (Ok None).
Proof.
  unfold generate_video_except, backoff.
  rewrite (Z.mul_comm (2 ^ attempt) 30).
  destruct (quota_error (exn_str e)); [reflexivity|].
  destruct (attempt =? max_retries - 1); reflexivity.
Qed.

Lemma length_range n : List.length (range n) = Z.to_nat n.
Proof. unfold range. now rewrite length_map, length_seq. Qed.

(** While the remote operation answers with an empty array, an attempt of
    the image stage does nothing but call it. *)
Lemma generate_image_loop_empty (I : World -> Prop) prompt output_path
    max_retries :
  (forall w, I w ->
     snd (env_generate_images prompt w) = Ok [] /\
     I (fst (env_generate_images prompt w))) ->
  forall attempts w, I w ->
    let o := generate_image_loop attempts prompt output_path max_retries w in
    out_trace o = repeat (EvGenerateImages prompt) (List.length attempts)
    /\ out_res o = Ok false.
Proof.
  intros Henv attempts. induction attempts as [|attempt rest IH]; intros w Hw.
  - split; reflexivity.
  - destruct (Henv w Hw) as [Hans Hnext].
    assert (Htry : generate_image_try prompt output_path w
                   = Out (fst (env_generate_images prompt w))
                         [EvGenerateImages prompt] (Ok None)).
    { unfold generate_image_try, generate_images, bind, call_env, ret.
      destruct (env_generate_images prompt w) as [w1 r].
      simpl in Hans. subst r. reflexivity. }
    destruct (IH _ Hnext) as [IHt IHr].
    cbn [generate_image_loop].
    rewrite (bind_ok _ _ _ _ _ _
               (try_except_ok _ _ _ _ _ _ Htry)).
    cbn zeta in IHt, IHr. cbn. rewrite IHt, IHr. split; reflexivity.
Qed.

(** C10: if every response of the text-to-image operation is a success
    with an empty array of images, the image stage calls the operation once
    per attempt, writes no file, pauses nowhere, and returns [False]. *)
Theorem empty_response_is_failure (I : World -> Prop)
    (prompt output_path : string) (max_retries : Z) (w : World) :
  (forall w', I w' ->
     snd (env_generate_images prompt w') = Ok [] /\
     I (fst (env_generate_images prompt w'))) ->
  I w ->
  let c := CallGenerateImage prompt output_path max_retries in
  let o := generate_image prompt output_path max_retries w in
  out_res o = Ok false
  /\ out_trace o
     = [EvEnter c]
       ++ repeat (EvGenerateImages prompt) (Z.to_nat max_retries)
       ++ [EvReturn c false]
  /\ (forall p data, EvWriteBytes p data ∉ out_trace o).
Proof.
  intros Henv Hw c o.
  destruct (generate_image_loop_empty I prompt output_path max_retries Henv
              (range max_retries) w Hw) as [Ht Hr].
  rewrite length_range in Ht. cbn zeta in Ht, Hr.
  assert (Ho : out_res o = Ok false /\
               out_trace o
               = [EvEnter c]
                 ++ repeat (EvGenerateImages prompt) (Z.to_nat max_retries)
                 ++ [EvReturn c false]).
  { subst o. unfold generate_image. rewrite stage_run.
    destruct (generate_image_loop _ _ _ _ w) as [w1 t r].
    simpl in Ht, Hr. subst t r. split; reflexivity. }
  destruct Ho as [Hres Htrace]. repeat split; try assumption.
  intros p data Hin. rewrite Htrace in Hin.
  rewrite !elem_of_app, !list_elem_of_singleton in Hin.
  destruct Hin as [Hin | [Hin | Hin]]; try discriminate.
  apply list_elem_of_In, repeat_spec in Hin. discriminate.
Qed.

End Retry.

(** ** The command line of the fallback stage *)

Section Fallback.
Context `{R : Runtime} `{E : Env}.


Lemma fallback_filter_slow_zoom_in frames :
  fallback_filter "slow zoom-in" frames = zoom_in_filter "1.12" frames.
Proof. reflexivity. Qed.

Lemma fallback_filter_unrecognized motion frames :
  recognized motion = false ->
  fallback_filter motion frames = zoom_in_filter "1.1" frames.
Proof.
  unfold recognized, fallback_filter. intros H.
  repeat (apply orb_false_elim in H; destruct H as [H ?]).
  repeat match goal with Heq : String.eqb _ _ = false |- _ =>
           rewrite Heq; clear Heq end.
  reflexivity.
Qed.

(** The fallback stage hands the tool one command line, built from the
    frame count [int(duration*25)]; when that conversion raises, none. *)
Lemma commands_run_create_fallback_video image_path output_video duration
    motion w :
  commands_run
    (out_trace (create_fallback_video image_path output_video duration
                  motion w))
  = match int_of_float (duration * 25)%float with
    | Ok frames =>
        [fallback_cmd image_path output_video
           (fallback_filter motion (str_of_Z frames)) duration]
    | Exc _ => []
    end.
Proof.
  unfold create_fallback_video. rewrite stage_run.
  unfold bind at 1, lift_res.
  destruct (int_of_float (duration * 25)%float) as [frames|e]; [|reflexivity].
  cbv zeta.
  unfold try_except_CalledProcessError, subprocess_run_check, subprocess_run,
    print_stderr, print.
  unfold try_except, bind, call_env, lift_res, emit, raise, ret.
  match goal with
  | |- context [env_subprocess_run ?cmd w] =>
      destruct (env_subprocess_run cmd w) as [w1 [result|e]]
  end.
  - destruct (returncode result =? 0); [reflexivity|].
    destruct (decode (stderr result)); reflexivity.
  - destruct e as [rc cmd' stderr_|cls msg]; [|reflexivity].
    destruct (decode stderr_); reflexivity.
Qed.

(** C1, as the code has it: a motion name outside the four presets gives
    the command line of the slow zoom-in preset with the zoom cap 1.1 in
    the place of 1.12, and nothing else changed; so all such names give the
    same command line. *)
Theorem unrecognized_motion_default_zoom (image_path output_video : string)
    (duration : float) (motion : string) (w : World) :
  recognized motion = false ->
  let cmd_with cap :=
    match int_of_float (duration * 25)%float with
    | Ok frames =>
        [fallback_cmd image_path output_video
           (zoom_in_filter cap (str_of_Z frames)) duration]
    | Exc _ => []
    end in
  commands_run
    (out_trace (create_fallback_video image_path output_video duration
                  motion w))
  = cmd_with "1.1"
  /\ commands_run
       (out_trace (create_fallback_video image_path output_video duration
                     "slow zoom-in" w))
     = cmd_with "1.12".
Proof.
  intros Hm cmd_with. subst cmd_with. cbv beta.
  rewrite !commands_run_create_fallback_video.
  destruct (int_of_float (duration * 25)%float) as [frames|e].
  - rewrite (fallback_filter_unrecognized _ _ Hm), fallback_filter_slow_zoom_in.
    split; reflexivity.
  - split; reflexivity.
Qed.


End Fallback.

(** ** The orchestrator *)

Lemma veo_monotone_no_failure t : no_failure t -> veo_monotone t.
Proof.
  intros Hnf t1 ev t2 -> Hev.
  apply Forall_app in Hnf as [_ Hnf]. inversion Hnf; subst. congruence.
Qed.

Lemma veo_monotone_app a b :
  veo_monotone a -> veo_monotone b -> no_failure a \/ no_veo b ->
  veo_monotone (a ++ b).
Proof.
  intros Ha Hb Hab t1 ev t2 Heq Hev.
  apply app_eq_app in Heq as [l [[-> Hb'] | [Ha' ->]]].
  - destruct l as [|x l]; simpl in Hb'.
    + apply (Hb [] ev t2); auto.
    + injection Hb' as <- ->.
      destruct Hab as [Hnf | Hnv].
      * apply Forall_app in Hnf as [_ Hnf]. inversion Hnf; subst. congruence.
      * apply Forall_app. split; [|assumption].
        apply (Ha t1 ev l); auto.
  - apply (Hb l ev t2); auto.
Qed.

Lemma veo_inv_quiet flag t r :
  no_veo t -> no_failure t -> (r = Some true -> flag = true) ->
  veo_inv flag t r.
Proof.
  intros Hv Hf Hr. repeat split; auto using veo_monotone_no_failure.
Qed.

Lemma veo_inv_app flag t1 flag1 t2 r :
  veo_inv flag t1 (Some flag1) -> veo_inv flag1 t2 r ->
  veo_inv flag (t1 ++ t2) r.
Proof.
  intros (Hm1 & Hv1 & Hf1) (Hm2 & Hv2 & Hf2). repeat split.
  - apply veo_monotone_app; auto.
    destruct flag1; [left; now apply Hf1 | right; now apply Hv2].
  - intros ->. apply Forall_app. split; [now apply Hv1|].
    apply Hv2. destruct flag1; [|reflexivity].
    now destruct (Hf1 eq_refl).
  - apply Forall_app. destruct (Hf2 H) as [Hnf2 ->].
    split; [now apply Hf1 | assumption].
  - destruct (Hf2 H) as [_ ->]. now apply Hf1.
Qed.

Section Orchestrator.
Context `{R : Runtime} `{E : Env}.

Lemma emits_image_step P s : around P (call_image s) -> emits P (image_step s).
Proof.
  intros H. unfold image_step.
  pose proof (emits_generate_image P _ _ _ H).
  emits_tac.
Qed.

Lemma emits_video_step P s flag :
  around P (call_veo s) -> around P (call_fallback s) ->
  emits P (video_step s flag).
Proof.
  intros Hv Hf. unfold video_step, veo_attempt, fallback_attempt.
  pose proof (emits_generate_video_from_image P _ _ _ _ Hv).
  pose proof (emits_create_fallback_video P _ _ _ _ Hf).
  emits_tac.
Qed.

Lemma emits_caption_step P s scene_videos_ :
  around P (call_overlay s) -> emits P (caption_step s scene_videos_).
Proof.
  intros H. unfold caption_step.
  pose proof (emits_add_text_overlay_to_video P _ _ _ H).
  emits_tac.
Qed.

Lemma emits_scene_after_image P s st :
  around P (call_veo s) -> around P (call_fallback s) ->
  around P (call_overlay s) ->
  emits P (scene_after_image s st).
Proof.
  intros Hv Hf Ho. unfold scene_after_image.
  pose proof (emits_video_step P s (use_veo st) Hv Hf).
  pose proof (emits_caption_step P s (scene_videos st) Ho).
  emits_tac.
Qed.

Lemma emits_process_scene P s st :
  around P (call_image s) -> around P (call_veo s) ->
  around P (call_fallback s) -> around P (call_overlay s) ->
  emits P (process_scene s st).
Proof.
  intros Hi Hv Hf Ho. unfold process_scene.
  pose proof (emits_image_step P s Hi).
  pose proof (emits_scene_after_image P s st Hv Hf Ho).
  emits_tac.
Qed.

Lemma emits_main_loop P scenes :
  (forall s, around P (call_image s) /\ around P (call_veo s) /\
             around P (call_fallback s) /\ around P (call_overlay s)) ->
  forall st, emits P (main_loop scenes st).
Proof.
  intros HP. induction scenes as [|s rest IH]; intros st; simpl.
  - apply emits_ret.
  - destruct (HP s) as (Hi & Hv & Hf & Ho).
    pose proof (emits_process_scene P s st Hi Hv Hf Ho).
    emits_tac.
Qed.

Lemma total_image_step s : total (image_step s).
Proof.
  unfold image_step.
  pose proof (total_generate_image (scene_prompt s) (raw_image s) 5).
  total_tac.
Qed.

(** The caption step always returns, with the contribution that the
    result of the caption stage selects. *)
Lemma caption_step_run s scene_videos_ w :
  exists w' inner captioned,
    Forall (fun ev => is_ghost ev = false) inner /\
    caption_step s scene_videos_ w
    = Out w' (EvEnter (call_overlay s) :: inner
              ++ [EvReturn (call_overlay s) captioned])
          (Ok (scene_videos_
               ++ [if captioned then final_video s else raw_video s])).
Proof.
  unfold caption_step, add_text_overlay_to_video.
  set (body := find_font _ ;; _).
  assert (Hs : silent body).
  { subst body. pose proof silent_find_font as Hf.
    pose proof silent_subprocess_run_text as Hr.
    unfold silent in *. emits_tac. }
  assert (Ht : total body).
  { subst body. pose proof total_find_font as Hf. total_tac. }
  specialize (Hs w). destruct (Ht w) as [captioned Hc].
  destruct (body w) as [w1 inner r] eqn:Hb. simpl in Hs, Hc. subst r.
  exists w1, inner, captioned. split; [assumption|].
  assert (Hst : stage (call_overlay s) body w
                = Out w1 (EvEnter (call_overlay s) :: inner
                          ++ [EvReturn (call_overlay s) captioned])
                      (Ok captioned)).
  { rewrite stage_run, Hb. reflexivity. }
  fold (call_overlay s).
  rewrite (bind_ok _ _ _ _ _ _ Hst).
  destruct captioned; simpl; now rewrite app_nil_r.
Qed.

Lemma around_not_veo c : is_veo c = false -> around not_veo c.
Proof.
  intros Hc. repeat split; simpl; try assumption.
  - now destruct b.
  - now destruct ev.
  - now destruct ev.
Qed.

Lemma not_veo_quiet flag t r :
  Forall not_veo t -> (r = Some true -> flag = true) -> veo_inv flag t r.
Proof.
  intros Ht Hr. apply veo_inv_quiet; [| |assumption];
    eapply Forall_impl; try exact Ht; now intros ev [? ?].
Qed.

Lemma veo_monotone_singleton ev : veo_monotone [ev].
Proof.
  intros [|x t1] ev' t2 Heq _.
  - injection Heq as _ <-. constructor.
  - injection Heq as _ Heq. now destruct t1.
Qed.

(** The trace of one call of the animation stage, from the flag set. *)
Lemma veo_inv_stage c inner b :
  Forall (fun ev => is_ghost ev = false) inner ->
  veo_inv true (EvEnter c :: inner ++ [EvReturn c b]) (Some b).
Proof.
  intros Hinner.
  assert (Hnf : no_failure (EvEnter c :: inner)).
  { constructor; [reflexivity|].
    eapply Forall_impl; [exact Hinner|]. now intros [] Hev. }
  repeat split.
  - change (veo_monotone ((EvEnter c :: inner) ++ [EvReturn c b])).
    apply veo_monotone_app; auto using veo_monotone_no_failure,
      veo_monotone_singleton.
  - discriminate.
  - injection H as ->.
    change (no_failure ((EvEnter c :: inner) ++ [EvReturn c true])).
    apply Forall_app. split; [assumption|]. now repeat constructor.
Qed.

Lemma generate_video_from_image_run image_path prompt output_path
    max_retries w :
  exists w' inner b,
    Forall (fun ev => is_ghost ev = false) inner /\
    generate_video_from_image image_path prompt output_path max_retries w
    = Out w' (EvEnter (CallGenerateVideo image_path prompt output_path
                         max_retries)
              :: inner
              ++ [EvReturn (CallGenerateVideo image_path prompt output_path
                              max_retries) b])
          (Ok b).
Proof.
  unfold generate_video_from_image. rewrite stage_run.
  pose proof (silent_generate_video_loop (range max_retries) image_path prompt
                output_path max_retries w) as Hs.
  destruct (total_generate_video_loop (range max_retries) image_path prompt
              output_path max_retries w) as [b Hb].
  destruct (generate_video_loop _ _ _ _ _ w) as [w1 inner r].
  simpl in Hs, Hb. subst r. now exists w1, inner, b.
Qed.

Lemma not_veo_fallback_attempt s video_created :
  emits not_veo (fallback_attempt s video_created).
Proof.
  unfold fallback_attempt.
  pose proof (emits_create_fallback_video not_veo (raw_image s)
                (raw_video s) 6.0%float (scene_camera s)
                (around_not_veo (call_fallback s) eq_refl)).
  emits_tac.
Qed.

(** The first half of step 2 keeps the invariant of the flag. *)
Lemma veo_inv_veo_attempt s flag w :
  veo_inv flag (out_trace (veo_attempt s flag w))
    (flag_of snd (out_res (veo_attempt s flag w))).
Proof.
  unfold veo_attempt.
  assert (Hskip : forall w', veo_inv flag
            (out_trace (ret (E:=E) (false, flag) w'))
            (flag_of snd (out_res (ret (E:=E) (false, flag) w')))).
  { intros w'. apply not_veo_quiet; [constructor | simpl; congruence]. }
  destruct flag.
  - rewrite bind_assoc, bind_exists_, bind_ret_l.
    destruct (path_exists w (raw_video s)); cbn [negb]; [apply Hskip|].
    destruct (generate_video_from_image_run (raw_image s) (animation_prompt s)
                (raw_video s) 3 w) as (w1 & inner & b & Hinner & Hrun).
    rewrite (bind_ok _ _ _ _ _ _ Hrun).
    destruct b; cbn; rewrite app_nil_r; now apply veo_inv_stage.
  - rewrite bind_ret_l. apply Hskip.
Qed.

(** Step 2 keeps the invariant of the flag. *)
Lemma veo_inv_video_step s flag w :
  veo_inv flag (out_trace (video_step s flag w))
    (flag_of snd (out_res (video_step s flag w))).
Proof.
  unfold video_step.
  pose proof (veo_inv_veo_attempt s flag w) as Hv.
  destruct (veo_attempt s flag w) as [w1 t1 [[b flag1]|e]] eqn:Hveo.
  - rewrite (bind_ok _ _ _ _ _ _ Hveo). cbn [out_trace out_res fst snd] in *.
    pose proof (not_veo_fallback_attempt s b w1) as Hf.
    destruct (fallback_attempt s b w1) as [w2 t2 [b'|e]] eqn:Hfb.
    + rewrite (bind_ok _ _ _ _ _ _ Hfb). cbn in *. rewrite app_nil_r.
      eapply veo_inv_app; [exact Hv|].
      apply not_veo_quiet; [assumption | congruence].
    + rewrite (bind_exc _ _ _ _ _ _ Hfb). cbn in *.
      eapply veo_inv_app; [exact Hv|].
      apply not_veo_quiet; [assumption | discriminate].
  - rewrite (bind_exc _ _ _ _ _ _ Hveo). exact Hv.
Qed.

Lemma not_veo_image_step s : emits not_veo (image_step s).
Proof. apply emits_image_step, (around_not_veo (call_image s) eq_refl). Qed.

Lemma not_veo_caption_step s scene_videos_ :
  emits not_veo (caption_step s scene_videos_).
Proof. apply emits_caption_step, (around_not_veo (call_overlay s) eq_refl). Qed.

(** Steps 2 and 3 keep the invariant of the flag. *)
Lemma veo_inv_scene_after_image s st w :
  veo_inv (use_veo st) (out_trace (scene_after_image s st w))
    (flag_of use_veo (out_res (scene_after_image s st w))).
Proof.
  unfold scene_after_image.
  pose proof (veo_inv_video_step s (use_veo st) w) as Hv.
  destruct (video_step s (use_veo st) w) as [w1 t1 [[b flag1]|e]] eqn:Hvid.
  - rewrite (bind_ok _ _ _ _ _ _ Hvid). cbn [out_trace out_res fst snd] in *.
    destruct b; cbn [negb].
    + pose proof (not_veo_caption_step s (scene_videos st) w1) as Hc.
      destruct (caption_step_run s (scene_videos st) w1)
        as (w2 & inner & captioned & _ & Hrun).
      rewrite Hrun in Hc. rewrite (bind_ok _ _ _ _ _ _ Hrun).
      cbn [out_trace out_res ret] in *. rewrite app_nil_r.
      eapply veo_inv_app; [exact Hv|].
      apply not_veo_quiet; [assumption | simpl; congruence].
    + cbn. rewrite app_nil_r. exact Hv.
  - rewrite (bind_exc _ _ _ _ _ _ Hvid). exact Hv.
Qed.

(** One turn of the scene loop keeps the invariant of the flag. *)
Lemma veo_inv_process_scene s st w :
  veo_inv (use_veo st) (out_trace (process_scene s st w))
    (flag_of use_veo (out_res (process_scene s st w))).
Proof.
  unfold process_scene.
  pose proof (not_veo_image_step s w) as Hi.
  destruct (total_image_step s w) as [ready Hready].
  destruct (image_step s w) as [w1 t1 r] eqn:Himg.
  cbn [out_trace out_res] in *. subst r.
  rewrite (bind_ok _ _ _ _ _ _ Himg). cbn [out_trace out_res].
  apply (veo_inv_app _ _ (use_veo st));
    [apply not_veo_quiet; [exact Hi | congruence]|].
  destruct ready; cbn [negb].
  - apply veo_inv_scene_after_image.
  - apply not_veo_quiet; [constructor | simpl; congruence].
Qed.

(** The scene loop keeps the invariant of the flag. *)
Lemma veo_inv_main_loop scenes st w :
  veo_inv (use_veo st) (out_trace (main_loop scenes st w))
    (flag_of use_veo (out_res (main_loop scenes st w))).
Proof.
  revert st w. induction scenes as [|s rest IH]; intros st w.
  - apply not_veo_quiet; [constructor | simpl; congruence].
  - cbn [main_loop].
    pose proof (veo_inv_process_scene s st w) as Hs.
    destruct (process_scene s st w) as [w1 t1 [st1|e]] eqn:Hps.
    + rewrite (bind_ok _ _ _ _ _ _ Hps). cbn [out_trace out_res] in *.
      eapply veo_inv_app; [exact Hs | apply IH].
    + rewrite (bind_exc _ _ _ _ _ _ Hps). exact Hs.
Qed.

Lemma not_veo_is_ghost ev : is_ghost ev = false -> not_veo ev.
Proof. now destruct ev. Qed.

(** The final step neither enters nor leaves the animation stage. *)
Lemma not_veo_final_assembly scene_videos_ :
  emits not_veo (final_assembly scene_videos_).
Proof.
  unfold final_assembly.
  pose proof (fun v o => emits_concatenate_videos _ v o
                (around_not_veo (CallConcat v o) eq_refl)) as Hc.
  pose proof (emits_impl _ not_veo _ not_veo_is_ghost
                (silent_subprocess_run_text
                   (ffprobe_cmd (path_join OUTPUT_DIR "final_video.mp4"))))
    as Hp.
  destruct scene_videos_ as [|v vs]; unfold print.
  - emits_tac.
  - set (vids := v :: vs) in *. specialize (Hc vids).
    emits_tac.
Qed.

Lemma veo_monotone_run_scenes scenes w :
  veo_monotone (out_trace (run_scenes scenes w)).
Proof.
  unfold run_scenes.
  destruct (veo_inv_main_loop scenes (RunState [] true) w) as (Hm & _ & _).
  destruct (main_loop scenes (RunState [] true) w) as [w1 t1 [st|e]] eqn:Hl.
  - rewrite (bind_ok _ _ _ _ _ _ Hl). cbn [out_trace] in *.
    pose proof (not_veo_final_assembly (scene_videos st) w1) as Hf.
    apply veo_monotone_app; [assumption | |right].
    + apply veo_monotone_no_failure.
      eapply Forall_impl; [exact Hf | now intros ev [? ?]].
    + eapply Forall_impl; [exact Hf | now intros ev [? ?]].
  - rewrite (bind_exc _ _ _ _ _ _ Hl). assumption.
Qed.

(** [main] with a credential is the scene loop over [SCENES] and the
    final step; without one it does nothing. *)
Lemma out_trace_main w :
  out_trace (main w) = out_trace (run_scenes SCENES w) \/
  out_trace (main w) = [].
Proof.
  unfold main. destruct (find_api_key w) as [[|c key]|]; auto.
  left. unfold bind at 1.
  destruct (run_scenes SCENES w) as [w1 t1 [[]|e]]; cbn; [|reflexivity].
  now rewrite app_nil_r.
Qed.

Lemma veo_monotone_main w : veo_monotone (out_trace (main w)).
Proof.
  destruct (out_trace_main w) as [-> | ->].
  - apply veo_monotone_run_scenes.
  - apply veo_monotone_no_failure. constructor.
Qed.

(** The scene loop over a list in two parts is the loop over the first
    part followed by the loop over the second. *)
Lemma main_loop_app pre rest st w :
  main_loop (pre ++ rest) st w = bind (main_loop pre st) (main_loop rest) w.
Proof.
  revert st w. induction pre as [|s pre IH]; intros st w; cbn [app main_loop].
  - now rewrite bind_ret_l.
  - rewrite bind_assoc.
    destruct (process_scene s st w) as [w1 t1 [st1|e]] eqn:Hps.
    + rewrite (bind_ok _ _ _ _ _ _ Hps). rewrite (bind_ok _ _ _ _ _ _ Hps).
      now rewrite IH.
    + rewrite (bind_exc _ _ _ _ _ _ Hps). now rewrite (bind_exc _ _ _ _ _ _ Hps).
Qed.

Lemma bind_trace_prefix {A B} (m : M A) (k : A -> M B) w :
  exists t, out_trace (bind m k w) = out_trace (m w) ++ t.
Proof.
  destruct (m w) as [w1 t1 [a|e]] eqn:Hm.
  - rewrite (bind_ok _ _ _ _ _ _ Hm). now eexists.
  - rewrite (bind_exc _ _ _ _ _ _ Hm). exists []. cbn. now rewrite app_nil_r.
Qed.

(** C2, as the code has it: in every run (of [main], or of the scene loop
    over any list of scenes), nothing that follows a failure of the
    animation stage enters that stage again; a turn of the scene
    loop that starts with the flag [use_veo] cleared, or in which the
    animation stage fails, ends with the flag cleared; and with the flag
    cleared, step 2 of a scene whose raw video is not on disk is the call
    of the fallback stage.  In a run over [scenes], for every scene [s]
    that comes after a failure of the animation stage: the loop reaches
    [s] with the flag cleared, the turn of [s] is part of the run and
    does not enter the animation stage, and if the image of [s] is ready
    and its raw video is not on disk then, right after the image step, the
    turn enters the fallback stage. *)
Theorem animation_disabled_after_failure (scenes : list scene) (w : World) :
  (forall t1 ev t2,
     out_trace (run_scenes scenes w) = t1 ++ ev :: t2 \/
     out_trace (main w) = t1 ++ ev :: t2 ->
     veo_failure ev = true ->
     Forall (fun ev' => veo_enter ev' = false) t2)
  /\ (forall s st w' st',
        out_res (process_scene s st w') = Ok st' ->
        use_veo st = false \/
        (exists ev, ev ∈ out_trace (process_scene s st w') /\
                    veo_failure ev = true) ->
        use_veo st' = false)
  /\ (forall s w',
        path_exists w' (raw_video s) = false ->
        video_step s false w'
        = (video_created <-
             create_fallback_video (raw_image s) (raw_video s) 6.0%float
               (scene_camera s) ;;
           ret (video_created, false)) w')
  /\ (forall pre s rest st1 w1 t1,
        scenes = pre ++ s :: rest ->
        main_loop pre (RunState [] true) w = Out w1 t1 (Ok st1) ->
        (exists ev, ev ∈ t1 /\ veo_failure ev = true) ->
        use_veo st1 = false
        /\ (exists t3,
              out_trace (run_scenes scenes w)
              = t1 ++ out_trace (process_scene s st1 w1) ++ t3)
        /\ Forall (fun ev => veo_enter ev = false)
             (out_trace (process_scene s st1 w1))
        /\ (out_res (image_step s w1) = Ok true ->
            path_exists (out_world (image_step s w1)) (raw_video s) = false ->
            exists t',
              out_trace (process_scene s st1 w1)
              = out_trace (image_step s w1)
                ++ EvEnter (CallFallback (raw_image s) (raw_video s)
                              6.0%float (scene_camera s)) :: t')).
Proof.
  split; [|split; [|split]].
  - intros t1 ev t2 [Heq | Heq].
    + exact (veo_monotone_run_scenes scenes w t1 ev t2 Heq).
    + exact (veo_monotone_main w t1 ev t2 Heq).
  - intros s st w' st' Hres Hcause.
    destruct (veo_inv_process_scene s st w') as (_ & _ & Hflag).
    rewrite Hres in Hflag. cbn [flag_of] in Hflag.
    destruct (use_veo st') eqn:Hst'; [|reflexivity].
    destruct (Hflag eq_refl) as [Hnf Hst].
    destruct Hcause as [Hoff | (ev & Hin & Hev)]; [congruence|].
    unfold no_failure in Hnf. rewrite Forall_forall in Hnf.
    specialize (Hnf ev Hin). congruence.
  - intros s w' Hex. unfold video_step, veo_attempt, fallback_attempt.
    repeat first [ rewrite bind_assoc | rewrite bind_ret_l
                 | rewrite bind_exists_ | rewrite Hex
                 | progress cbn [fst snd negb] ].
    reflexivity.
  - intros pre s rest st1 w1 t1 Hscenes Hpre (ev & Hin & Hev).
    assert (Hflag : use_veo st1 = false).
    { destruct (veo_inv_main_loop pre (RunState [] true) w) as (_ & _ & Hf).
      rewrite Hpre in Hf. cbn [out_trace out_res flag_of] in Hf.
      destruct (use_veo st1); [|reflexivity].
      destruct (Hf eq_refl) as [Hnf _].
      unfold no_failure in Hnf. rewrite Forall_forall in Hnf.
      specialize (Hnf ev Hin). congruence. }
    split; [exact Hflag|]. split; [|split].
    + subst scenes. unfold run_scenes.
      destruct (bind_trace_prefix
                  (main_loop (pre ++ s :: rest) (RunState [] true))
                  (fun st => final_assembly (scene_videos st)) w) as [t3 ->].
      rewrite main_loop_app, (bind_ok _ _ _ _ _ _ Hpre).
      cbn [out_trace].
      change (main_loop (s :: rest) st1 w1)
        with (bind (process_scene s st1) (main_loop rest) w1).
      destruct (bind_trace_prefix (process_scene s st1) (main_loop rest) w1)
        as [t4 ->].
      exists (t4 ++ t3). now rewrite <- !app_assoc.
    + destruct (veo_inv_process_scene s st1 w1) as (_ & Hno & _).
      exact (Hno Hflag).
    + intros Himg Hvid. unfold process_scene.
      destruct (image_step s w1) as [w2 t2 r] eqn:Hi.
      cbn [out_res out_world out_trace] in *. subst r.
      rewrite (bind_ok _ _ _ _ _ _ Hi). cbn [negb out_trace].
      unfold scene_after_image, video_step, veo_attempt, fallback_attempt.
      rewrite Hflag.
      repeat first [ rewrite bind_assoc | rewrite bind_ret_l
                   | rewrite bind_exists_ | rewrite Hvid
                   | progress cbn [fst snd negb] ].
      match goal with
      | |- context [out_trace (?m w2)] =>
          assert (Hfirst : exists t,
                    out_trace (m w2)
                    = EvEnter (CallFallback (raw_image s) (raw_video s)
                                 6.0%float (scene_camera s)) :: t)
            by apply bind_stage_first
      end.
      destruct Hfirst as [t' ->]. now exists t'.
Qed.


(** C8: when the scene loop ends with an empty list of contributions, the
    run ends by printing that no scene was generated, and never enters
    the assembly stage. *)
Theorem no_contribution_no_assembly (scenes : list scene) (w : World)
    (st : run_state) :
  out_res (main_loop scenes (RunState [] true) w) = Ok st ->
  scene_videos st = [] ->
  out_res (run_scenes scenes w) = Ok tt
  /\ out_trace (run_scenes scenes w)
     = out_trace (main_loop scenes (RunState [] true) w)
       ++ [EvPrint (nl +:+ "No scenes were successfully generated.")]
  /\ Forall (fun ev => forall video_files output_video,
               ev <> EvEnter (CallConcat video_files output_video))
       (out_trace (run_scenes scenes w)).
Proof.
  intros Hres Hempty.
  assert (Hloop : Forall (fun ev => forall video_files output_video,
                            ev <> EvEnter (CallConcat video_files output_video))
                    (out_trace (main_loop scenes (RunState [] true) w))).
  { apply emits_main_loop. intros s.
    repeat split; try discriminate; intros ev Hev v o ->; discriminate. }
  unfold run_scenes.
  destruct (main_loop scenes (RunState [] true) w) as [w1 t1 r] eqn:Hl.
  cbn [out_res out_trace] in *. subst r.
  rewrite (bind_ok _ _ _ _ _ _ Hl), Hempty. cbn.
  repeat split. apply Forall_app. split; [assumption|].
  repeat constructor. discriminate.
Qed.

(** C6: when the caption stage returns in a turn of the scene loop, the
    turn ends normally and the loop goes on with the next scene; the
    contribution appended is the captioned video if the stage returned
    [True] and the raw video if it returned [False]. *)
Theorem caption_result_selects_contribution (s : scene) (st : run_state)
    (w : World) (captioned : bool) :
  EvReturn (CallOverlay (raw_video s) (final_video s) (scene_text s))
    captioned ∈ out_trace (process_scene s st w) ->
  exists st',
    out_res (process_scene s st w) = Ok st'
    /\ scene_videos st'
       = scene_videos st
         ++ [if captioned then final_video s else raw_video s]
    /\ forall rest,
         let o := process_scene s st w in
         let o' := main_loop rest st' (out_world o) in
         main_loop (s :: rest) st w
         = Out (out_world o') (out_trace o ++ out_trace o') (out_res o').
Proof.
  set (c := CallOverlay (raw_video s) (final_video s) (scene_text s)).
  set (P := fun ev => forall b, ev <> EvReturn c b).
  assert (HP : forall c', c' <> c -> around P c').
  { intros c' Hc'. repeat split; try discriminate.
    - intros b b' [= Heq _]. contradiction.
    - intros ev Hev b ->. discriminate. }
  assert (Hnot : forall t, Forall P t -> EvReturn c captioned ∉ t).
  { intros t Ht Hin. rewrite Forall_forall in Ht.
    now apply (Ht _ Hin captioned). }
  intros Hin.
  assert (Hres : exists st',
            out_res (process_scene s st w) = Ok st' /\
            scene_videos st'
            = scene_videos st
              ++ [if captioned then final_video s else raw_video s]).
  { unfold process_scene in *.
    pose proof (emits_image_step P s (HP (call_image s) ltac:(discriminate)) w)
      as Hi.
    destruct (total_image_step s w) as [ready Hready].
    destruct (image_step s w) as [w1 t1 r] eqn:Himg.
    cbn [out_trace out_res] in *. subst r.
    rewrite (bind_ok _ _ _ _ _ _ Himg) in *. cbn [out_trace out_res] in *.
    apply elem_of_app in Hin as [Hin | Hin]; [now apply Hnot in Hin|].
    destruct ready; cbn [negb] in *; [|now apply elem_of_nil in Hin].
    unfold scene_after_image in *.
    pose proof (emits_video_step P s (use_veo st)
                  (HP (call_veo s) ltac:(discriminate))
                  (HP (call_fallback s) ltac:(discriminate)) w1) as Hv.
    destruct (video_step s (use_veo st) w1) as [w2 t2 [[b flag]|e]] eqn:Hvid.
    - rewrite (bind_ok _ _ _ _ _ _ Hvid) in *.
      cbn [out_trace out_res fst snd] in *.
      apply elem_of_app in Hin as [Hin | Hin]; [now apply Hnot in Hin|].
      destruct b; cbn [negb] in *; [|now apply elem_of_nil in Hin].
      destruct (caption_step_run s (scene_videos st) w2)
        as (w3 & inner & captioned' & Hinner & Hrun).
      rewrite (bind_ok _ _ _ _ _ _ Hrun) in *.
      cbn [out_trace out_res ret] in *.
      rewrite app_nil_r in Hin.
      apply elem_of_cons in Hin as [Hin | Hin]; [discriminate|].
      apply elem_of_app in Hin as [Hin | Hin].
      + rewrite Forall_forall in Hinner.
        specialize (Hinner _ Hin). discriminate.
      + apply list_elem_of_singleton in Hin. injection Hin as ->.
        eexists. split; reflexivity.
    - rewrite (bind_exc _ _ _ _ _ _ Hvid) in *. cbn [out_trace] in Hin.
      now apply Hnot in Hin. }
  destruct Hres as (st' & Hres & Hvids).
  exists st'. repeat split; try assumption.
  intros rest o o'. subst o o'. cbn [main_loop].
  destruct (process_scene s st w) as [w1 t1 r] eqn:Hps.
  cbn [out_res] in Hres. subst r.
  now rewrite (bind_ok _ _ _ _ _ _ Hps).
Qed.

End Orchestrator.

(** ** Runs on the scripted environment *)

Import Example.

Lemma split_failure_spec t t1 ev t2 :
  split_failure t = Some (t1, ev, t2) ->
  t = t1 ++ ev :: t2 /\ veo_failure ev = true.
Proof.
  revert t1. induction t as [|ev0 t IH]; intros t1 H; [discriminate|].
  simpl in H. destruct (veo_failure ev0) eqn:Hev0.
  - injection H as <- <- <-. now split.
  - destruct (split_failure t) as [[[a e] b]|]; [|discriminate].
    injection H as <- <- <-. destruct (IH a eq_refl) as [-> ?]. now split.
Qed.

Ltac find_elem :=
  vm_compute;
  repeat first [ apply list_elem_of_here | apply list_elem_of_further ].

(** *** The fallback stage *)

(** C1, as stated, fails: on the same image, output path and duration,
    the name ["zoom-in"] (the default of the parameter, and not one of the
    four presets) and the preset ["slow zoom-in"] give different command
    lines: the zoom is capped at 1.1 for the former, at 1.12 for the
    latter. *)
Lemma unrecognized_motion_differs_from_slow_zoom_in :
  commands_run
    (out_trace (create_fallback_video "output/scene_1_raw.png"
                  "output/scene_1_raw.mp4" 6.0%float "zoom-in" fresh))
  = [ [ "ffmpeg"; "-y"; "-loop"; "1"; "-i"; "output/scene_1_raw.png";
        "-filter_complex";
        "[0:v]scale=8000:-1,zoompan=z='min(zoom+0.0003,1.1)':d=150:x='iw/2-(iw/zoom/2)':y='ih/2-(ih/zoom/2)':s=720x1280,setsar=1[v]";
        "-map"; "[v]"; "-c:v"; "libx264"; "-t"; "6.0";
        "-pix_fmt"; "yuv420p"; "-r"; "25"; "output/scene_1_raw.mp4" ] ]
  /\ commands_run
       (out_trace (create_fallback_video "output/scene_1_raw.png"
                     "output/scene_1_raw.mp4" 6.0%float "zoom-in" fresh))
     <> commands_run
          (out_trace (create_fallback_video "output/scene_1_raw.png"
                        "output/scene_1_raw.mp4" 6.0%float "slow zoom-in"
                        fresh)).
Proof. split; vm_compute; [reflexivity | discriminate]. Qed.

Lemma unrecognized_motion_default_zoom_witness :
  recognized "zoom-in" = false
  /\ commands_run
       (out_trace (create_fallback_video "output/scene_1_raw.png"
                     "output/scene_1_raw.mp4" 6.0%float "zoom-in" fresh))
     = [fallback_cmd "output/scene_1_raw.png" "output/scene_1_raw.mp4"
          (zoom_in_filter "1.1" "150") 6.0%float].
Proof.
  split; [reflexivity|].
  exact (proj1 (unrecognized_motion_default_zoom "output/scene_1_raw.png"
                  "output/scene_1_raw.mp4" 6.0%float "zoom-in" fresh eq_refl)).
Defined.



(** C5, at two failures of the media tool: when the tool exits with a
    non-zero status and an error message that is not UTF-8, decoding the
    message inside the [except] clause raises, and the exception leaves the
    fallback stage and the assembly stage; when the tool cannot be started,
    the error is not a [CalledProcessError] and leaves them as well.  In
    both worlds it leaves [main] too, from the assembly stage. *)
Theorem media_stage_exceptions_escape :
  out_res (create_fallback_video "output/scene_1_raw.png"
             "output/scene_1_raw.mp4" 6.0%float "slow zoom-in" garbled_world)
  = Exc (PyError "UnicodeDecodeError" "'utf-8' codec can't decode byte")
  /\ out_res (concatenate_videos ["output/scene_1.mp4"]
                "output/final_video.mp4" garbled_world)
     = Exc (PyError "UnicodeDecodeError" "'utf-8' codec can't decode byte")
  /\ out_res (create_fallback_video "output/scene_1_raw.png"
                "output/scene_1_raw.mp4" 6.0%float "slow zoom-in"
                missing_tool_world)
     = Exc (file_not_found "ffmpeg")
  /\ out_res (concatenate_videos ["output/scene_1.mp4"]
                "output/final_video.mp4" missing_tool_world)
     = Exc (file_not_found "ffmpeg")
  /\ out_res (add_text_overlay_to_video "output/scene_1_raw.mp4"
                "output/scene_1.mp4" "text" missing_tool_world)
     = Ok false
  /\ out_res (main garbled_world)
     = Exc (PyError "UnicodeDecodeError" "'utf-8' codec can't decode byte")
  /\ out_res (main missing_tool_world) = Exc (file_not_found "ffmpeg").
Proof. repeat split; vm_compute; reflexivity. Qed.

(** *** The retry policy *)

Lemma quota_backoff_delay_witness :
  quota_error (exn_str quota_exceeded) = true
  /\ generate_image_except (E:=env) 2 5 quota_exceeded fresh
     = Out (E:=env) fresh [EvSleep 40] (Ok None)
  /\ generate_video_except (E:=env) 2 3 quota_exceeded fresh
     = Out (E:=env) fresh [EvSleep 120] (Ok None)
  /\ backoff 10 120 2 <= backoff 10 120 3 <= 120.
Proof.
  split; [reflexivity|].
  destruct (quota_backoff_delay (E:=env) 2 5 quota_exceeded fresh eq_refl)
    as (Hi & _ & Hm).
  destruct (quota_backoff_delay (E:=env) 2 3 quota_exceeded fresh eq_refl)
    as (_ & Hv & _).
  split; [exact Hi|]. split; [exact Hv|].
  exact (proj1 (Hm 3%nat (le_S _ _ (le_n _)))).
Defined.

(** The pauses of a whole call of each stage when every attempt meets a
    quota error: the delays of attempts 0, 1, 2, ... in order. *)
Lemma quota_backoff_run :
  sleeps (out_trace (generate_image "prompt" "output/scene_1_raw.png" 5
                       image_quota_world))
  = map (backoff 10 120) (range 5)
  /\ sleeps (out_trace (generate_video_from_image "output/scene_1_raw.png"
                          "prompt" "output/scene_1_raw.mp4" 3
                          (with_files quota_world
                             {[ "output/scene_1_raw.png" ]})))
     = map (backoff 30 180) (range 3).
Proof. split; vm_compute; reflexivity. Qed.

(** C3, at an unavailable service: the animation stage pauses the fixed
    ten seconds of an unclassified error after each of its first two
    attempts, and gives up at the third without a pause; the image stage, on
    the same error, backs off by [min(5 * 2^a, 60)]; and a quota error makes
    the animation stage back off by [min(30 * 2^a, 180)]. *)
Theorem animation_unavailable_fixed_delay :
  let veo w :=
    generate_video_from_image "output/scene_1_raw.png" "prompt"
      "output/scene_1_raw.mp4" 3 w in
  sleeps (out_trace (veo unavailable_world)) = [10; 10]
  /\ out_res (veo unavailable_world) = Ok false
  /\ sleeps (out_trace (generate_image "prompt" "output/scene_2_raw.png" 5
                          unavailable_world))
     = [5; 10; 20; 40; 60]
  /\ sleeps (out_trace (veo (with_files quota_world
                               {[ "output/scene_1_raw.png" ]})))
     = [30; 60; 120]
  /\ (forall attempt max_retries w,
        generate_video_except attempt max_retries unavailable w
        = generate_video_except attempt max_retries invalid_argument w).
Proof.
  cbv zeta. do 4 (split; [vm_compute; reflexivity|]).
  intros attempt max_retries w. now rewrite !generate_video_except_cases.
Qed.

Lemma empty_response_is_failure_witness :
  let c := CallGenerateImage "prompt" "output/scene_1_raw.png" 5 in
  let o := generate_image "prompt" "output/scene_1_raw.png" 5 empty_world in
  out_res o = Ok false
  /\ out_trace o
     = [ EvEnter c;
         EvGenerateImages "prompt"; EvGenerateImages "prompt";
         EvGenerateImages "prompt"; EvGenerateImages "prompt";
         EvGenerateImages "prompt";
         EvReturn c false ].
Proof.
  destruct (empty_response_is_failure (E:=env)
              (fun w : world => forall n, image_answer w n = Ok [])
              "prompt" "output/scene_1_raw.png" 5 empty_world
              (fun w' Hw' => conj (Hw' (image_calls w')) Hw')
              (fun n => eq_refl))
    as (Hres & Htrace & _).
  split; [exact Hres | exact Htrace].
Defined.

(** *** The orchestrator *)

(** C2, as stated, fails for a later scene whose raw video is on disk:
    the animation stage fails on scene 1, and scene 2 is not routed to the
    fallback stage; its existing raw video goes to the caption stage. *)
Lemma later_scene_with_video_skips_fallback :
  let t := out_trace (main quota_world_resumed) in
  veo_results t = [("output/scene_1_raw.mp4", false)]
  /\ entered t
     = [ ("generate_image", "output/scene_1_raw.png");
         ("generate_video_from_image", "output/scene_1_raw.mp4");
         ("create_fallback_video", "output/scene_1_raw.mp4");
         ("add_text_overlay_to_video", "output/scene_1.mp4");
         ("generate_image", "output/scene_2_raw.png");
         ("add_text_overlay_to_video", "output/scene_2.mp4");
         ("generate_image", "output/scene_3_raw.png");
         ("create_fallback_video", "output/scene_3_raw.mp4");
         ("add_text_overlay_to_video", "output/scene_3.mp4");
         ("generate_image", "output/scene_4_raw.png");
         ("create_fallback_video", "output/scene_4_raw.mp4");
         ("add_text_overlay_to_video", "output/scene_4.mp4");
         ("concatenate_videos", "output/final_video.mp4") ]
  /\ ("create_fallback_video", "output/scene_2_raw.mp4") ∉ entered t.
Proof.
  cbv zeta. split; [vm_compute; reflexivity|].
  split; [vm_compute; reflexivity|].
  vm_compute. intros H.
  repeat (apply elem_of_cons in H as [H|H]; [discriminate|]).
  now apply elem_of_nil in H.
Qed.

Lemma animation_disabled_after_failure_witness :
  (exists t1 ev t2,
     split_failure (out_trace (run_scenes SCENES quota_world))
     = Some (t1, ev, t2)
     /\ Forall (fun ev' => veo_enter ev' = false) t2)
  /\ (exists st',
        out_res (process_scene scene_1 (RunState [] true) quota_world)
        = Ok st' /\ use_veo st' = false)
  /\ video_step scene_2 false fresh
     = (video_created <-
          create_fallback_video "output/scene_2_raw.png"
            "output/scene_2_raw.mp4" 6.0%float "slow outside-in drift" ;;
        ret (video_created, false)) fresh
  /\ exists t t',
       out_trace (run_scenes SCENES quota_world)
       = (out_trace (main_loop [scene_1] (RunState [] true) quota_world)
          ++ t)
         ++ EvEnter (CallFallback (raw_image scene_2) (raw_video scene_2)
                       6.0%float (scene_camera scene_2)) :: t'.
Proof.
  destruct (animation_disabled_after_failure (E:=env) SCENES quota_world)
    as (Hmono & Hflag & Hroute & Hlater).
  split; [|split; [|split]].
  - destruct (split_failure (out_trace (run_scenes (E:=env) SCENES quota_world)))
      as [[[t1 ev] t2]|] eqn:Hsplit; [|vm_compute in Hsplit; discriminate].
    exists t1, ev, t2. split; [reflexivity|].
    destruct (split_failure_spec _ _ _ _ Hsplit) as [Heq Hev].
    exact (Hmono t1 ev t2 (or_introl Heq) Hev).
  - destruct (out_res (process_scene (E:=env) scene_1 (RunState [] true)
                         quota_world))
      as [st'|e] eqn:Hres; [|vm_compute in Hres; discriminate].
    exists st'. split; [reflexivity|].
    apply (Hflag scene_1 (RunState [] true) quota_world st' Hres).
    right.
    exists (EvReturn (CallGenerateVideo (raw_image scene_1)
                        (animation_prompt scene_1) (raw_video scene_1) 3)
                     false).
    split; [find_elem | reflexivity].
  - exact (Hroute scene_2 fresh eq_refl).
  - set (o := main_loop (E:=env) [scene_1] (RunState [] true) quota_world).
    assert (Hpre : o = Out (E:=env) (out_world o) (out_trace o)
                         (Ok (RunState ["output/scene_1.mp4"] false)))
      by (vm_compute; reflexivity).
    assert (Hfail : exists ev, ev ∈ out_trace o /\ veo_failure ev = true).
    { exists (EvReturn (CallGenerateVideo (raw_image scene_1)
                          (animation_prompt scene_1) (raw_video scene_1) 3)
                       false).
      split; [subst o; find_elem | reflexivity]. }
    destruct (Hlater [scene_1] scene_2 (List.skipn 2 SCENES) _ _ _ eq_refl
                Hpre Hfail) as (_ & (t3 & Hrun) & _ & Hfb).
    destruct Hfb as [t' Ht'];
      [vm_compute; reflexivity | vm_compute; reflexivity |].
    exists (out_trace (image_step (E:=env) scene_2 (out_world o))), (t' ++ t3).
    rewrite Hrun, Ht'. now rewrite <- !app_assoc.
Defined.


Lemma no_contribution_no_assembly_witness :
  out_res (main_loop SCENES (RunState [] true) rejecting_world)
  = Ok (RunState [] true)
  /\ out_res (run_scenes SCENES rejecting_world) = Ok tt
  /\ out_trace (run_scenes SCENES rejecting_world)
     = out_trace (main_loop SCENES (RunState [] true) rejecting_world)
       ++ [EvPrint (nl +:+ "No scenes were successfully generated.")].
Proof.
  assert (Hres : out_res (main_loop (E:=env) SCENES (RunState [] true)
                            rejecting_world)
                 = Ok (RunState [] true)) by (vm_compute; reflexivity).
  split; [exact Hres|].
  destruct (no_contribution_no_assembly (E:=env) SCENES rejecting_world
              (RunState [] true) Hres eq_refl) as (H1 & H2 & _).
  split; [exact H1 | exact H2].
Defined.

Lemma caption_result_selects_contribution_witness :
  exists st',
    out_res (process_scene scene_1 (RunState [] true) no_captions_world)
    = Ok st'
    /\ scene_videos st' = ["output/scene_1_raw.mp4"].
Proof.
  assert (Hin : EvReturn (CallOverlay (raw_video scene_1)
                            (final_video scene_1) (scene_text scene_1)) false
                ∈ out_trace (process_scene (E:=env) scene_1 (RunState [] true)
                               no_captions_world)) by find_elem.
  destruct (caption_result_selects_contribution (E:=env) scene_1 (RunState [] true)
              no_captions_world false Hin) as (st' & Hres & Hvids & _).
  exists st'. split; [exact Hres | exact Hvids].
Defined.

(** * Further properties *)

(** ** Counting events *)

Section Counting.
Context `{E : Env}.

Lemma count_app f t1 t2 : count f (t1 ++ t2) = (count f t1 + count f t2)%nat.
Proof. unfold count. now rewrite List.filter_app, length_app. Qed.

Lemma count_none f t : Forall (fun ev => f ev = false) t -> count f t = 0%nat.
Proof.
  unfold count. induction 1 as [|ev t Hev _ IH]; [reflexivity|].
  simpl. now rewrite Hev.
Qed.

Lemma at_most_le {A} f a b (m : M A) :
  at_most f a m -> (a <= b)%nat -> at_most f b m.
Proof. intros Hm Hab w. specialize (Hm w). lia. Qed.

Lemma at_most_silent {A} f (m : M A) :
  emits (fun ev => f ev = false) m -> at_most f 0 m.
Proof. intros Hm w. now rewrite (count_none _ _ (Hm w)). Qed.

Lemma at_most_bind {A B} f a b (m : M A) (k : A -> M B) :
  at_most f a m -> (forall x, at_most f b (k x)) -> at_most f (a + b) (bind m k).
Proof.
  intros Hm Hk w. specialize (Hm w).
  destruct (m w) as [w1 t1 [x|e]] eqn:Hmw.
  - rewrite (bind_ok _ _ _ _ _ _ Hmw). cbn [out_trace] in *.
    rewrite count_app. specialize (Hk x w1). lia.
  - rewrite (bind_exc _ _ _ _ _ _ Hmw). cbn [out_trace] in *. lia.
Qed.

Lemma at_most_try_except {A} f a b (m : M A) h :
  at_most f a m -> (forall e, at_most f b (h e)) ->
  at_most f (a + b) (try_except m h).
Proof.
  intros Hm Hh w. specialize (Hm w).
  destruct (m w) as [w1 t1 [x|e]] eqn:Hmw.
  - rewrite (try_except_ok _ _ _ _ _ _ Hmw). cbn [out_trace] in *. lia.
  - rewrite (try_except_exc _ _ _ _ _ _ Hmw). cbn [out_trace] in *.
    rewrite count_app. specialize (Hh e w1). lia.
Qed.

Lemma at_most_call_env {A} f ev (op : World -> World * res A) :
  at_most f 1 (call_env ev op).
Proof.
  intros w. unfold call_env, count. destruct (op w). simpl.
  destruct (f ev); simpl; lia.
Qed.

Lemma at_most_stage f n c body :
  f (EvEnter c) = false -> (forall b, f (EvReturn c b) = false) ->
  at_most f n body -> at_most f n (stage c body).
Proof.
  intros He Hr Hb w. rewrite stage_run. specialize (Hb w).
  destruct (body w) as [w1 t [b|e]]; cbn [out_trace] in *.
  - change (EvEnter c :: t ++ [EvReturn c b])
      with ([EvEnter c] ++ t ++ [EvReturn c b]).
    rewrite !count_app. unfold count at 1 3. simpl. rewrite He, Hr. simpl. lia.
  - change (EvEnter c :: t) with ([EvEnter c] ++ t).
    rewrite count_app. unfold count at 1. simpl. rewrite He. simpl. lia.
Qed.

End Counting.

(** ** The two remote stages: attempts, results and pauses *)

Section Attempts.
Context `{R : Runtime} `{E : Env}.

Lemma at_most_generate_image_loop f attempts prompt output_path max_retries :
  (forall attempt,
     at_most f 1 (try_except (generate_image_try prompt output_path)
                    (generate_image_except attempt max_retries))) ->
  at_most f (List.length attempts)
    (generate_image_loop attempts prompt output_path max_retries).
Proof.
  intros Hstep. induction attempts as [|attempt rest IH]; cbn.
  - apply at_most_silent, emits_ret.
  - change (S (List.length rest)) with (1 + List.length rest)%nat.
    apply at_most_bind; [apply Hstep|].
    intros [b|]; [|exact IH].
    apply (at_most_le _ 0%nat); [apply at_most_silent, emits_ret | lia].
Qed.

Lemma at_most_generate_video_loop f attempts image_path prompt output_path
    max_retries :
  (forall attempt,
     at_most f 1 (try_except
                    (generate_video_try image_path prompt output_path)
                    (generate_video_except attempt max_retries))) ->
  at_most f (List.length attempts)
    (generate_video_loop attempts image_path prompt output_path max_retries).
Proof.
  intros Hstep. induction attempts as [|attempt rest IH]; cbn.
  - apply at_most_silent, emits_ret.
  - change (S (List.length rest)) with (1 + List.length rest)%nat.
    apply at_most_bind; [apply Hstep|].
    intros [b|]; [|exact IH].
    apply (at_most_le _ 0%nat); [apply at_most_silent, emits_ret | lia].
Qed.

Lemma image_attempt_requests prompt output_path attempt max_retries :
  at_most is_image_request 1
    (try_except (generate_image_try prompt output_path)
       (generate_image_except attempt max_retries)).
Proof.
  change 1%nat with ((1 + 0) + 0)%nat.
  apply at_most_try_except.
  - unfold generate_image_try. apply at_most_bind.
    + apply at_most_call_env.
    + intros response. apply at_most_silent. unfold write_bytes. emits_tac.
  - intros e. apply at_most_silent.
    unfold generate_image_except, sleep. emits_tac.
Qed.

Lemma image_attempt_sleeps prompt output_path attempt max_retries :
  at_most is_sleep 1
    (try_except (generate_image_try prompt output_path)
       (generate_image_except attempt max_retries)).
Proof.
  change 1%nat with (0 + (1 + 0))%nat.
  apply at_most_try_except.
  - apply at_most_silent.
    unfold generate_image_try, generate_images, write_bytes. emits_tac.
  - intros e. unfold generate_image_except, sleep. cbv zeta.
    repeat match goal with
           | |- at_most _ _ (if ?b then _ else _) => destruct b
           end;
      try (apply at_most_bind;
           [apply at_most_call_env | intros; apply at_most_silent, emits_ret]).
    apply (at_most_le _ 0%nat); [apply at_most_silent, emits_ret | lia].
Qed.

(** Polling pauses and queries, and does nothing else. *)
Lemma emits_poll P (operation_ : operation World video) :
  P (EvSleep 10) -> P EvOperationsGet -> emits P (poll operation_).
Proof.
  intros Hs Hg. unfold emits. revert operation_.
  fix IH 1. intros [generated_videos|get] w; simpl.
  - constructor.
  - destruct (get (env_sleep 10 w)) as [w1 [next|e]]; simpl.
    + specialize (IH next w1). destruct (poll next w1) as [w2 t r]. simpl in *.
      repeat constructor; assumption.
    + repeat constructor; assumption.
Qed.

Lemma not_video_request_poll (operation_ : operation World video) :
  emits (fun ev => is_video_request ev = false) (poll operation_).
Proof. now apply emits_poll. Qed.

Lemma video_attempt_requests image_path prompt output_path attempt
    max_retries :
  at_most is_video_request 1
    (try_except (generate_video_try image_path prompt output_path)
       (generate_video_except attempt max_retries)).
Proof.
  change 1%nat with ((0 + (1 + 0)) + 0)%nat.
  apply at_most_try_except.
  - unfold generate_video_try. apply at_most_bind.
    + apply at_most_silent. unfold read_bytes. emits_tac.
    + intros image_bytes. apply at_most_bind; [apply at_most_call_env|].
      intros operation_. apply at_most_silent.
      pose proof not_video_request_poll as Hpoll.
      unfold files_download, video_save. emits_tac.
  - intros e. apply at_most_silent.
    unfold generate_video_except, sleep. emits_tac.
Qed.

(** X1: attempts are bounded: a call of the image stage makes at most
    [max_retries] requests to the text-to-image operation and pauses at
    most [max_retries] times; a call of the animation stage makes at most
    [max_retries] requests to the image-to-video operation; with a
    [max_retries] of zero or less, either stage returns [False] at once. *)
Theorem attempts_are_bounded (image_path prompt output_path : string)
    (max_retries : Z) (w : World) (k : nat) :
  (count is_image_request
     (out_trace (generate_image prompt output_path max_retries w))
   <= Z.to_nat max_retries)%nat
  /\ (count is_sleep
        (out_trace (generate_image prompt output_path max_retries w))
      <= Z.to_nat max_retries)%nat
  /\ (count is_video_request
        (out_trace (generate_video_from_image image_path prompt output_path
                      max_retries w))
      <= Z.to_nat max_retries)%nat
  /\ generate_image prompt output_path (- Z.of_nat k) w
     = Out w [ EvEnter (CallGenerateImage prompt output_path (- Z.of_nat k));
               EvReturn (CallGenerateImage prompt output_path (- Z.of_nat k))
                 false ]
           (Ok false)
  /\ generate_video_from_image image_path prompt output_path (- Z.of_nat k) w
     = Out w [ EvEnter (CallGenerateVideo image_path prompt output_path
                          (- Z.of_nat k));
               EvReturn (CallGenerateVideo image_path prompt output_path
                           (- Z.of_nat k)) false ]
           (Ok false).
Proof.
  rewrite <- (length_range max_retries).
  repeat split.
  - apply at_most_stage; [reflexivity | reflexivity |].
    apply at_most_generate_image_loop; intros; apply image_attempt_requests.
  - apply at_most_stage; [reflexivity | reflexivity |].
    apply at_most_generate_image_loop; intros; apply image_attempt_sleeps.
  - apply at_most_stage; [reflexivity | reflexivity |].
    apply at_most_generate_video_loop; intros; apply video_attempt_requests.
  - unfold generate_image. rewrite stage_run.
    replace (range (- Z.of_nat k)) with (@nil Z); [reflexivity|].
    unfold range. now replace (Z.to_nat (- Z.of_nat k)) with 0%nat by lia.
  - unfold generate_video_from_image. rewrite stage_run.
    replace (range (- Z.of_nat k)) with (@nil Z); [reflexivity|].
    unfold range. now replace (Z.to_nat (- Z.of_nat k)) with 0%nat by lia.
Qed.

(** X2: the image stage and the caption stage always return [True] or
    [False]: no exception of the remote operation, of the file system or
    of the media tool escapes them.  The animation stage lets no exception
    escape either; whether it returns is up to its polling loop, which has
    no bound of its own. *)
Theorem remote_and_caption_stages_catch_exceptions (image_path prompt
    output_path text : string) (max_retries : Z) (w : World) :
  (exists b, out_res (generate_image prompt output_path max_retries w) = Ok b)
  /\ (exists b,
        out_res (add_text_overlay_to_video image_path output_path text w)
        = Ok b)
  /\ (forall e,
        out_res (generate_video_from_image image_path prompt output_path
                   max_retries w) <> Exc e).
Proof.
  split; [|split].
  - apply total_generate_image.
  - apply total_add_text_overlay_to_video.
  - intros e.
    destruct (total_generate_video_from_image image_path prompt output_path
                max_retries w) as [b ->].
    discriminate.
Qed.

(** X3: polling follows the handle.  When, with a pause of ten seconds
    before every status query, the handle takes [k] queries until one finds
    it done or raises, polling is exactly [k] times that pause and one
    query, the pause first; it stops there, and returns the videos of the
    handle that is done, or passes the exception of the query on.  A handle
    that is done from the start is neither waited for nor queried. *)
Theorem polling_stops_at_completion (operation_ : operation World video)
    (w w' : World) (k : nat) (r : res (list video)) :
  answers operation_ w k w' r ->
  poll operation_ w
  = Out w' (List.concat (repeat [EvSleep 10; EvOperationsGet] k)) r.
Proof.
  induction 1 as [generated_videos w | get w w1 e Hget
                 | get w w1 next k w2 r Hget _ IH].
  - reflexivity.
  - cbn. now rewrite Hget.
  - cbn. rewrite Hget, IH. reflexivity.
Qed.

(** An attempt of the image stage that returns [True] has requested the
    images and written one to the output path, and nothing else. *)
Lemma image_attempt_true prompt output_path attempt max_retries w w1 t1 :
  try_except (generate_image_try prompt output_path)
    (generate_image_except attempt max_retries) w
  = Out w1 t1 (Ok (Some true)) ->
  exists image, t1 = [EvGenerateImages prompt; EvWriteBytes output_path image].
Proof.
  unfold try_except, generate_image_try, generate_images, write_bytes.
  unfold bind, call_env, ret.
  destruct (env_generate_images prompt w) as [w2 [[|image images]|e]].
  - discriminate.
  - destruct (env_write_bytes output_path image w2) as [w3 [[]|e]].
    + intros [= _ <-]. now exists image.
    + unfold generate_image_except, sleep, bind, call_env, ret.
      repeat match goal with
             | |- context [if ?b then _ else _] => destruct b
             end; discriminate.
  - unfold generate_image_except, sleep, bind, call_env, ret.
    repeat match goal with
           | |- context [if ?b then _ else _] => destruct b
           end; discriminate.
Qed.

Lemma generate_image_loop_true attempts prompt output_path max_retries w :
  out_res (generate_image_loop attempts prompt output_path max_retries w)
  = Ok true ->
  exists t image,
    out_trace (generate_image_loop attempts prompt output_path max_retries w)
    = t ++ [EvGenerateImages prompt; EvWriteBytes output_path image].
Proof.
  revert w. induction attempts as [|attempt rest IH]; intros w; cbn.
  - discriminate.
  - destruct (try_except (generate_image_try prompt output_path)
                (generate_image_except attempt max_retries) w)
      as [w1 t1 [[b|]|e]] eqn:Hm.
    + rewrite (bind_ok _ _ _ _ _ _ Hm). cbn. intros [= ->].
      destruct (image_attempt_true _ _ _ _ _ _ _ Hm) as [image ->].
      now exists [], image.
    + rewrite (bind_ok _ _ _ _ _ _ Hm). cbn [out_res out_trace]. intros Hres.
      destruct (IH w1 Hres) as (t & image & ->).
      exists (t1 ++ t), image. now rewrite app_assoc.
    + rewrite (bind_exc _ _ _ _ _ _ Hm). discriminate.
Qed.

(** An attempt of the animation stage that returns [True] ends by
    downloading the video and saving it to the output path. *)
Lemma video_attempt_true image_path prompt output_path attempt max_retries
    w w1 t1 :
  try_except (generate_video_try image_path prompt output_path)
    (generate_video_except attempt max_retries) w
  = Out w1 t1 (Ok (Some true)) ->
  exists t, t1 = t ++ [EvFilesDownload; EvVideoSave output_path].
Proof.
  assert (Hexc : forall e w' w'' t'',
            generate_video_except attempt max_retries e w'
            <> Out w'' t'' (Ok (Some true))).
  { intros e w' w'' t''. rewrite generate_video_except_cases.
    repeat match goal with
           | |- context [if ?b then _ else _] => destruct b
           end; discriminate. }
  destruct (generate_video_try image_path prompt output_path w)
    as [w2 t2 [r|e]] eqn:Htry.
  - rewrite (try_except_ok _ _ _ _ _ _ Htry). intros [= -> -> ->].
    revert Htry. unfold generate_video_try, read_bytes, generate_videos,
      files_download, video_save.
    unfold bind at 1, call_env at 1.
    destruct (env_read_bytes image_path w) as [w3 [image_bytes|e]];
      [|discriminate].
    unfold bind at 1, call_env at 1.
    destruct (env_generate_videos prompt image_bytes w3)
      as [w4 [operation_|e]]; [|discriminate].
    unfold bind at 1.
    destruct (poll operation_ w4) as [w5 t5 [[|v vs]|e]];
      [discriminate | | discriminate].
    unfold bind, call_env, ret.
    destruct (env_files_download v w5) as [w6 [[]|e]]; [|discriminate].
    destruct (env_video_save v output_path w6) as [w7 [[]|e]];
      [|discriminate].
    intros [= _ <-].
    exists ([EvReadBytes image_path] ++ [EvGenerateVideos prompt image_bytes]
            ++ t5).
    reflexivity.
  - rewrite (try_except_exc _ _ _ _ _ _ Htry).
    destruct (generate_video_except attempt max_retries e w2)
      as [w3 t3 r] eqn:Hh.
    cbn. intros [= -> <- ->]. now apply Hexc in Hh.
Qed.

Lemma generate_video_loop_true attempts image_path prompt output_path
    max_retries w :
  out_res (generate_video_loop attempts image_path prompt output_path
             max_retries w) = Ok true ->
  exists t,
    out_trace (generate_video_loop attempts image_path prompt output_path
                 max_retries w)
    = t ++ [EvFilesDownload; EvVideoSave output_path].
Proof.
  revert w. induction attempts as [|attempt rest IH]; intros w; cbn.
  - discriminate.
  - destruct (try_except (generate_video_try image_path prompt output_path)
                (generate_video_except attempt max_retries) w)
      as [w1 t1 [[b|]|e]] eqn:Hm.
    + rewrite (bind_ok _ _ _ _ _ _ Hm). cbn. intros [= ->].
      destruct (video_attempt_true _ _ _ _ _ _ _ _ Hm) as [t ->].
      exists t. now rewrite app_nil_r.
    + rewrite (bind_ok _ _ _ _ _ _ Hm). cbn [out_res out_trace]. intros Hres.
      destruct (IH w1 Hres) as (t & ->).
      exists (t1 ++ t). now rewrite app_assoc.
    + rewrite (bind_exc _ _ _ _ _ _ Hm). discriminate.
Qed.

(** X4: a remote stage returns [True] only from an attempt that got through:
    the last thing the image stage did was to request the images and write
    one of them to its output path; the last thing the animation stage did
    was to download the video and save it to its output path. *)
Theorem true_only_after_saving (image_path prompt output_path : string)
    (max_retries : Z) (w : World) :
  (out_res (generate_image prompt output_path max_retries w) = Ok true ->
   exists t image,
     out_trace (generate_image prompt output_path max_retries w)
     = EvEnter (CallGenerateImage prompt output_path max_retries)
       :: t ++ [ EvGenerateImages prompt; EvWriteBytes output_path image;
                 EvReturn (CallGenerateImage prompt output_path max_retries)
                   true ])
  /\ (out_res (generate_video_from_image image_path prompt output_path
                 max_retries w) = Ok true ->
      exists t,
        out_trace (generate_video_from_image image_path prompt output_path
                     max_retries w)
        = EvEnter (CallGenerateVideo image_path prompt output_path
                     max_retries)
          :: t ++ [ EvFilesDownload; EvVideoSave output_path;
                    EvReturn (CallGenerateVideo image_path prompt output_path
                                max_retries) true ]).
Proof.
  split.
  - unfold generate_image. rewrite stage_run.
    pose proof (generate_image_loop_true (range max_retries) prompt
                  output_path max_retries w) as Hloop.
    destruct (generate_image_loop _ _ _ _ w) as [w1 t1 [b|e]];
      cbn [out_res out_trace] in *; [|discriminate].
    intros [= ->]. destruct (Hloop eq_refl) as (t & image & ->).
    exists t, image. now rewrite <- app_assoc.
  - unfold generate_video_from_image. rewrite stage_run.
    pose proof (generate_video_loop_true (range max_retries) image_path prompt
                  output_path max_retries w) as Hloop.
    destruct (generate_video_loop _ _ _ _ _ w) as [w1 t1 [b|e]];
      cbn [out_res out_trace] in *; [|discriminate].
    intros [= ->]. destruct (Hloop eq_refl) as (t & ->).
    exists t. now rewrite <- app_assoc.
Qed.

Lemma sleeps_app t1 t2 : sleeps (t1 ++ t2) = sleeps t1 ++ sleeps t2.
Proof. apply omap_app. Qed.

Lemma sleeps_cons ev t : is_sleep ev = false -> sleeps (ev :: t) = sleeps t.
Proof. now destruct ev. Qed.

(** The [except] clause of the image stage, by class of error. *)
Lemma generate_image_except_cases attempt max_retries e w :
  generate_image_except attempt max_retries e w =
  if quota_error (exn_str e)
  then Out (env_sleep (backoff 10 120 attempt) w)
           [EvSleep (backoff 10 120 attempt)] (Ok None)
  else if unavailable_error (exn_str e)
  then Out (env_sleep (backoff 5 60 attempt) w)
           [EvSleep (backoff 5 60 attempt)] (Ok None)
  else if attempt =? max_retries - 1 then Out w [] (Ok (Some false))
  else Out (env_sleep 5 w) [EvSleep 5] (Ok None).
Proof.
  unfold generate_image_except, backoff.
  rewrite (Z.mul_comm (2 ^ attempt) 10), (Z.mul_comm (2 ^ attempt) 5).
  destruct (quota_error (exn_str e)); [reflexivity|].
  destruct (unavailable_error (exn_str e)); [reflexivity|].
  destruct (attempt =? max_retries - 1); reflexivity.
Qed.

(** The loop of the image stage from attempt [k] on, with [m] attempts
    left, when every request fails with an error of one class. *)
Lemma generate_image_loop_schedule (I : World -> Prop) prompt output_path
    max_retries (quota unavailable_ : bool) :
  (forall w, I w ->
     exists e,
       snd (env_generate_images prompt w) = Exc e
       /\ quota_error (exn_str e) = quota
       /\ unavailable_error (exn_str e) = unavailable_
       /\ forall secs, I (env_sleep secs (fst (env_generate_images prompt w)))) ->
  forall (m k : nat) w, I w ->
    (m <> 0%nat -> Z.of_nat (k + m) = max_retries) ->
    let o := generate_image_loop (map Z.of_nat (seq k m)) prompt output_path
               max_retries w in
    out_res o = Ok false
    /\ sleeps (out_trace o)
       = if quota then map (backoff 10 120) (map Z.of_nat (seq k m))
         else if unavailable_
              then map (backoff 5 60) (map Z.of_nat (seq k m))
              else repeat 5 (m - 1)%nat.
Proof.
  intros Henv m. induction m as [|m IH]; intros k w Hw Hmax; cbv zeta.
  - cbn. now destruct quota, unavailable_.
  - destruct (Henv w Hw) as (e & Hans & Hq & Hu & Hnext).
    assert (Htry : generate_image_try prompt output_path w
                   = Out (fst (env_generate_images prompt w))
                         [EvGenerateImages prompt] (Exc e)).
    { unfold generate_image_try, generate_images, bind, call_env.
      destruct (env_generate_images prompt w) as [w1 r].
      simpl in Hans. now subst r. }
    set (w1 := fst (env_generate_images prompt w)) in *.
    assert (Hk : Z.of_nat (k + S m) = max_retries) by now apply Hmax.
    assert (Hrest : forall secs,
              let o := generate_image_loop (map Z.of_nat (seq (S k) m)) prompt
                         output_path max_retries (env_sleep secs w1) in
              out_res o = Ok false
              /\ sleeps (out_trace o)
                 = if quota
                   then map (backoff 10 120) (map Z.of_nat (seq (S k) m))
                   else if unavailable_
                        then map (backoff 5 60) (map Z.of_nat (seq (S k) m))
                        else repeat 5 (m - 1)%nat).
    { intros secs. apply IH; [apply Hnext | intros _; lia]. }
    cbn [seq map generate_image_loop].
    pose proof (try_except_exc _
                  (generate_image_except (Z.of_nat k) max_retries) _ _ _ _
                  Htry) as Hm.
    rewrite generate_image_except_cases, Hq, Hu in Hm.
    destruct quota; [|destruct unavailable_;
                      [|destruct (Z.of_nat k =? max_retries - 1) eqn:Hlast]];
      cbn [out_world out_trace out_res] in Hm;
      rewrite (bind_ok _ _ _ _ _ _ Hm); cbn [out_res out_trace].
    + destruct (Hrest (backoff 10 120 (Z.of_nat k))) as [Hr Hs].
      cbv zeta in Hr, Hs. split; [exact Hr|].
      now rewrite sleeps_app, Hs.
    + destruct (Hrest (backoff 5 60 (Z.of_nat k))) as [Hr Hs].
      cbv zeta in Hr, Hs. split; [exact Hr|].
      now rewrite sleeps_app, Hs.
    + apply Z.eqb_eq in Hlast. assert (m = 0%nat) as -> by lia.
      split; reflexivity.
    + apply Z.eqb_neq in Hlast.
      destruct (Hrest 5) as [Hr Hs]. cbv zeta in Hr, Hs.
      split; [exact Hr|]. rewrite sleeps_app, Hs.
      destruct m as [|m]; [lia|]. cbn. now rewrite Nat.sub_0_r.
Qed.

(** X5: the schedule of the image stage under a persistent error.  When every
    request fails with a quota error, the stage pauses [min(10 * 2^a, 120)]
    seconds after every attempt [a], the last one included, before it
    returns [False]; with an unavailable service the pauses are
    [min(5 * 2^a, 60)], again after every attempt; with any other error it
    pauses five seconds between attempts and returns [False] right after
    the last. *)
Theorem image_retry_schedule (I : World -> Prop) (prompt output_path : string)
    (max_retries : Z) (quota unavailable_ : bool) (w : World) :
  (forall w', I w' ->
     exists e,
       snd (env_generate_images prompt w') = Exc e
       /\ quota_error (exn_str e) = quota
       /\ unavailable_error (exn_str e) = unavailable_
       /\ forall secs,
            I (env_sleep secs (fst (env_generate_images prompt w')))) ->
  I w ->
  out_res (generate_image prompt output_path max_retries w) = Ok false
  /\ sleeps (out_trace (generate_image prompt output_path max_retries w))
     = image_schedule quota unavailable_ max_retries.
Proof.
  intros Henv Hw.
  destruct (generate_image_loop_schedule I prompt output_path max_retries
              quota unavailable_ Henv (Z.to_nat max_retries) 0 w Hw)
    as [Hr Hs]; [lia|]. cbv zeta in Hr, Hs.
  unfold generate_image. rewrite stage_run. fold (range max_retries) in Hr, Hs.
  destruct (generate_image_loop _ _ _ _ w) as [w1 t1 r1].
  cbn [out_res out_trace] in *. subst r1. split; [reflexivity|].
  cbn [out_trace]. rewrite sleeps_cons by reflexivity.
  rewrite sleeps_app, Hs. cbn. now rewrite app_nil_r.
Qed.

End Attempts.

(** ** The caption stage *)

Section Caption.
Context `{R : Runtime} `{E : Env}.

Lemma string_app_assoc (s1 s2 s3 : string) :
  (s1 +:+ s2) +:+ s3 = s1 +:+ (s2 +:+ s3).
Proof.
  induction s1 as [|a s1 IH]; [reflexivity|].
  change (String a ((s1 +:+ s2) +:+ s3) = String a (s1 +:+ (s2 +:+ s3))).
  now rewrite IH.
Qed.

Lemma replace_char_app c by_ s1 s2 :
  replace_char c by_ (s1 +:+ s2)
  = replace_char c by_ s1 +:+ replace_char c by_ s2.
Proof.
  induction s1 as [|a s1 IH]; [reflexivity|].
  change (String a s1 +:+ s2) with (String a (s1 +:+ s2)).
  cbn [replace_char]. rewrite IH.
  destruct (Ascii.eqb a c); [|reflexivity].
  now rewrite string_app_assoc.
Qed.

Lemma escape_text_app s1 s2 :
  escape_text (s1 +:+ s2) = escape_text s1 +:+ escape_text s2.
Proof. unfold escape_text. now rewrite !replace_char_app. Qed.

Lemma escape_text_char c : escape_text (String c "") = escape_char c.
Proof.
  unfold escape_text, escape_char. cbn [replace_char].
  destruct (Ascii.eqb c "\") eqn:H1; [reflexivity|].
  cbn [replace_char String.append].
  destruct (Ascii.eqb c "'") eqn:H2; [reflexivity|].
  cbn [replace_char String.append].
  destruct (Ascii.eqb c ":") eqn:H3; [reflexivity|].
  cbn [replace_char String.append].
  destruct (Ascii.eqb c "%") eqn:H4; reflexivity.
Qed.

(** X6: the four replaces of the caption stage, in their order, amount to one
    pass that escapes each character on its own: a backslash, a single
    quote, a colon and a percent sign get their escape, every other
    character stays; no escape is escaped again.  So escaping goes through
    concatenation, and the empty text stays empty. *)
Theorem escape_text_is_characterwise (text1 text2 : string) :
  escape_text text1 = flat_map_string escape_char text1
  /\ escape_text (text1 +:+ text2) = escape_text text1 +:+ escape_text text2
  /\ escape_text "" = "".
Proof.
  split; [|split; [apply escape_text_app | reflexivity]].
  induction text1 as [|c s IH]; [reflexivity|].
  change (String c s) with (String c "" +:+ s).
  rewrite escape_text_app, escape_text_char, IH. reflexivity.
Qed.

Lemma find_font_run fonts w :
  find_font fonts w
  = Out w [] (Ok match List.find (path_exists w) fonts with
                 | Some font => font
                 | None => "Times"
                 end).
Proof.
  induction fonts as [|font rest IH]; [reflexivity|].
  cbn [find_font List.find]. rewrite bind_exists_.
  destruct (path_exists w font); [reflexivity | exact IH].
Qed.

(** X7: what the caption stage does and returns.  It runs one command: the
    overlay of the escaped text in the first font of its list that exists
    (["Times"] if none does), on the input video, without audio.  It
    returns [True] exactly when the tool could be run, exited with status
    0 and printed output that decodes; in every other case it returns
    [False]. *)
Theorem caption_stage_outcome (input_video output_video text : string)
    (w : World) :
  let cmd :=
    overlay_cmd input_video output_video
      (drawtext_filter (first_font (path_exists w)) (escape_text text)) in
  let o := add_text_overlay_to_video input_video output_video text w in
  commands_run (out_trace o) = [cmd]
  /\ out_res o
     = Ok match snd (env_subprocess_run cmd w) with
          | Ok result =>
              (returncode result =? 0)
              && decodes (stdout result) && decodes (stderr result)
          | Exc _ => false
          end.
Proof.
  cbv zeta. unfold add_text_overlay_to_video. rewrite stage_run.
  rewrite (bind_ok _ _ _ _ _ _ (find_font_run font_options w)).
  fold (first_font (path_exists w)).
  unfold try_except, subprocess_run_text, subprocess_run.
  unfold bind, call_env, lift_res, ret, decode, decodes.
  destruct (env_subprocess_run _ w) as [w1 [result|e]]; [|split; reflexivity].
  cbn [snd].
  destruct (utf8_valid (map _ (stdout result)));
    [|rewrite andb_false_r; split; reflexivity].
  destruct (utf8_valid (map _ (stderr result)));
    [|rewrite andb_false_r; split; reflexivity].
  rewrite !andb_true_r. cbn [fst snd].
  destruct (returncode result =? 0); split; reflexivity.
Qed.

End Caption.

(** ** The fallback and assembly stages *)

Section Media.
Context `{R : Runtime} `{E : Env}.

(** X8: what the fallback stage returns once the tool has run: [True] exactly
    when the exit status is 0; [False], after printing the decoded error
    output, when the status is not 0 and the error output decodes; and the
    [UnicodeDecodeError] itself when it does not.  In each case the tool is
    run once and nothing else is done. *)
Theorem fallback_stage_outcome (image_path output_video : string)
    (duration : float) (motion : string) (w w1 : World) (frames : Z)
    (result : completed) :
  int_of_float (duration * 25)%float = Ok frames ->
  let cmd := fallback_cmd image_path output_video
               (fallback_filter motion (str_of_Z frames)) duration in
  let c := CallFallback image_path output_video duration motion in
  env_subprocess_run cmd w = (w1, Ok result) ->
  create_fallback_video image_path output_video duration motion w
  = if returncode result =? 0
    then Out w1 [EvEnter c; EvRun cmd; EvReturn c true] (Ok true)
    else match decode (stderr result) with
         | Ok text =>
             Out w1 [ EvEnter c; EvRun cmd; EvPrint ("  Error: " +:+ text);
                      EvReturn c false ] (Ok false)
         | Exc e => Out w1 [EvEnter c; EvRun cmd] (Exc e)
         end.
Proof.
  intros Hf cmd c Hrun. unfold create_fallback_video. rewrite stage_run.
  unfold bind at 1, lift_res. rewrite Hf. cbv zeta. fold cmd.
  unfold try_except_CalledProcessError, subprocess_run_check, subprocess_run,
    print_stderr, print.
  unfold try_except, bind, call_env, lift_res, emit, raise, ret.
  rewrite Hrun.
  destruct (returncode result =? 0); [reflexivity|].
  destruct (decode (stderr result)); reflexivity.
Qed.

(** X9: what the assembly stage does once the manifest is written and the tool
    has run.  The manifest lists the clips in order.  With exit status 0
    the manifest is deleted and the stage returns [True]; with any other
    status the manifest is left in the output directory, and the stage
    returns [False] if the error output decodes. *)
Theorem assembly_stage_outcome (video_files : list string)
    (output_video : string) (w w1 w2 : World) (result : completed) :
  let concat_file := path_join OUTPUT_DIR "concat.txt" in
  let manifest := concat_manifest video_files in
  let cmd := concat_cmd concat_file output_video in
  let c := CallConcat video_files output_video in
  env_write_text concat_file manifest w = (w1, Ok tt) ->
  env_subprocess_run cmd w1 = (w2, Ok result) ->
  concatenate_videos video_files output_video w
  = if returncode result =? 0
    then match env_unlink concat_file w2 with
         | (w3, Ok _) =>
             Out w3 [ EvEnter c; EvWriteText concat_file manifest; EvRun cmd;
                      EvUnlink concat_file; EvReturn c true ] (Ok true)
         | (w3, Exc e) =>
             match e with
             | CalledProcessError _ _ stderr_ =>
                 match decode stderr_ with
                 | Ok text =>
                     Out w3 [ EvEnter c; EvWriteText concat_file manifest;
                              EvRun cmd; EvUnlink concat_file;
                              EvPrint ("  Error: " +:+ text);
                              EvReturn c false ] (Ok false)
                 | Exc e' =>
                     Out w3 [ EvEnter c; EvWriteText concat_file manifest;
                              EvRun cmd; EvUnlink concat_file ] (Exc e')
                 end
             | PyError _ _ =>
                 Out w3 [ EvEnter c; EvWriteText concat_file manifest;
                          EvRun cmd; EvUnlink concat_file ] (Exc e)
             end
         end
    else match decode (stderr result) with
         | Ok text =>
             Out w2 [ EvEnter c; EvWriteText concat_file manifest; EvRun cmd;
                      EvPrint ("  Error: " +:+ text); EvReturn c false ]
                 (Ok false)
         | Exc e =>
             Out w2 [EvEnter c; EvWriteText concat_file manifest; EvRun cmd]
                 (Exc e)
         end.
Proof.
  intros concat_file manifest cmd c Hwrite Hrun.
  unfold concatenate_videos. rewrite stage_run. cbv zeta.
  fold concat_file manifest cmd.
  unfold try_except_CalledProcessError, subprocess_run_check, subprocess_run,
    print_stderr, print, write_text, unlink.
  unfold try_except, bind, call_env, lift_res, emit, raise, ret.
  rewrite Hwrite, Hrun.
  destruct (returncode result =? 0).
  - destruct (env_unlink concat_file w2) as [w3 [[]|[rc cmd' stderr_|cls msg]]];
      try reflexivity.
    destruct (decode stderr_); reflexivity.
  - destruct (decode (stderr result)); reflexivity.
Qed.

End Media.

(** ** The credential lookup *)

Section CredentialLookup.
Context `{R : Runtime}.
Import Credential.

Lemma scan_lines_keyless f : keyless f = true -> scan_lines f = Ok None.
Proof.
  induction f as [|line rest IH|e]; cbn; [reflexivity| |discriminate].
  intros [Hl Hr]%andb_true_iff. apply negb_true_iff in Hl.
  rewrite Hl. now apply IH.
Qed.

Lemma scan_files_passed_over h before rest :
  Forall (passed_over h) before ->
  scan_files h (before ++ rest) = scan_files h rest.
Proof.
  induction 1 as [|p before Hp _ IH]; [reflexivity|]. cbn.
  destruct Hp as [-> | (f & -> & Hf)]; [exact IH|].
  destruct (file_exists h p); [|exact IH].
  now rewrite (scan_lines_keyless f Hf).
Qed.

Lemma scan_lines_app ls f :
  Forall (fun l => String.prefix key_prefix l = false) ls ->
  scan_lines (lines_app ls f) = scan_lines f.
Proof.
  induction 1 as [|l ls Hl _ IH]; [reflexivity|]. cbn. now rewrite Hl.
Qed.

Lemma key_line value :
  String.prefix key_prefix (key_prefix +:+ value) = true
  /\ key_of_line (key_prefix +:+ value)
     = Ok (strip_chars quotes (str_strip value)).
Proof.
  split.
  - change (String.prefix "" value = true). now destruct value.
  - reflexivity.
Qed.

(** X10: the first line that starts with the key's name, in the first candidate
    file that has one, decides: when the environment variable is unset or
    empty, the candidate files before it are absent or hold no such line,
    and the lines before it in its file do not start with the name, the
    lookup returns what follows the [=] sign, stripped of white space and
    then of surrounding quotes.  Later lines and later files are not
    looked at. *)
Theorem first_key_line_decides (h : host) (before after : list string)
    (p : string) (ls : list string) (value : string) (rest : lines) :
  getenv h = None \/ getenv h = Some "" ->
  env_paths h = before ++ p :: after ->
  Forall (passed_over h) before ->
  file_exists h p = true ->
  open_file h p = Ok (lines_app ls (Line (key_prefix +:+ value) rest)) ->
  Forall (fun l => String.prefix key_prefix l = false) ls ->
  find_api_key h = Ok (Some (strip_chars quotes (str_strip value))).
Proof.
  intros Henv Hpaths Hbefore Hex Hopen Hls.
  assert (Hscan : find_api_key h = scan_files h (env_paths h)).
  { unfold find_api_key. now destruct Henv as [-> | ->]. }
  rewrite Hscan, Hpaths, (scan_files_passed_over _ _ _ Hbefore).
  cbn [scan_files]. rewrite Hex, Hopen, (scan_lines_app _ _ Hls).
  cbn [scan_lines]. destruct (key_line value) as [-> ->]. reflexivity.
Qed.

(** X11: without a key anywhere the lookup returns [None]: the environment
    variable is unset or empty, and every candidate file is absent or has
    no line that starts with the key's name. *)
Theorem no_key_anywhere (h : host) :
  getenv h = None \/ getenv h = Some "" ->
  Forall (passed_over h) (env_paths h) ->
  find_api_key h = Ok None.
Proof.
  intros Henv Hall.
  assert (Hscan : find_api_key h = scan_files h (env_paths h)).
  { unfold find_api_key. now destruct Henv as [-> | ->]. }
  rewrite Hscan, <- (app_nil_r (env_paths h)).
  now rewrite (scan_files_passed_over _ _ _ Hall).
Qed.

(** X12: a candidate file that exists and cannot be read stops the lookup: the
    exception of [open], or of reading on before any line of the key,
    leaves [find_api_key], and the later candidate files are not tried. *)
Theorem unreadable_file_stops_lookup (h : host) (before after : list string)
    (p : string) (ls : list string) (e : exn) :
  getenv h = None \/ getenv h = Some "" ->
  env_paths h = before ++ p :: after ->
  Forall (passed_over h) before ->
  file_exists h p = true ->
  open_file h p = Exc e \/
  (open_file h p = Ok (lines_app ls (ReadError e)) /\
   Forall (fun l => String.prefix key_prefix l = false) ls) ->
  find_api_key h = Exc e.
Proof.
  intros Henv Hpaths Hbefore Hex Hopen.
  assert (Hscan : find_api_key h = scan_files h (env_paths h)).
  { unfold find_api_key. now destruct Henv as [-> | ->]. }
  rewrite Hscan, Hpaths, (scan_files_passed_over _ _ _ Hbefore).
  cbn [scan_files]. rewrite Hex.
  destruct Hopen as [-> | [-> Hls]]; [reflexivity|].
  now rewrite (scan_lines_app _ _ Hls).
Qed.

End CredentialLookup.

(** ** The scene loop and the final step *)

Section Scenes.
Context `{R : Runtime} `{E : Env}.

Lemma count_elem_of f ev t : f ev = true -> ev ∈ t -> (1 <= count f t)%nat.
Proof.
  intros Hf Hin. apply list_elem_of_split in Hin as (t1 & t2 & ->).
  rewrite count_app. unfold count at 2. simpl. rewrite Hf. simpl. lia.
Qed.

Lemma at_most_stage_enter f n c body :
  (forall b, f (EvReturn c b) = false) ->
  at_most f n body -> at_most f (S n) (stage c body).
Proof.
  intros Hr Hb w. rewrite stage_run. specialize (Hb w).
  destruct (body w) as [w1 t [b|e]]; cbn [out_trace] in *.
  - change (EvEnter c :: t ++ [EvReturn c b])
      with ([EvEnter c] ++ t ++ [EvReturn c b]).
    rewrite !count_app. unfold count at 1 3. simpl. rewrite Hr.
    destruct (f (EvEnter c)); simpl; lia.
  - change (EvEnter c :: t) with ([EvEnter c] ++ t).
    rewrite count_app. unfold count at 1. simpl.
    destruct (f (EvEnter c)); simpl; lia.
Qed.

Lemma at_most_bind_l {A B} f n (m : M A) (k : A -> M B) :
  at_most f 0 m -> (forall x, at_most f n (k x)) -> at_most f n (bind m k).
Proof. intros Hm Hk. exact (at_most_bind f 0 n m k Hm Hk). Qed.

Lemma at_most_bind_r {A B} f n (m : M A) (k : A -> M B) :
  at_most f n m -> (forall x, at_most f 0 (k x)) -> at_most f n (bind m k).
Proof.
  intros Hm Hk. pose proof (at_most_bind f n 0 m k Hm Hk) as H.
  now rewrite Nat.add_0_r in H.
Qed.

Lemma not_assembly_is_ghost ev : is_ghost ev = false -> is_assembly ev = false.
Proof. now destruct ev. Qed.

Lemma at_most_quiet {A} (m : M A) : silent m -> at_most is_assembly 0 m.
Proof.
  intros Hm. apply at_most_silent.
  eapply emits_impl; [exact not_assembly_is_ghost | exact Hm].
Qed.

Lemma silent_print s : silent (print s).
Proof. unfold silent, print. emits_tac. Qed.

Lemma at_most_concatenate_videos video_files output_video :
  at_most is_assembly 1 (concatenate_videos video_files output_video).
Proof.
  unfold concatenate_videos. apply at_most_stage_enter; [reflexivity|].
  apply at_most_quiet.
  pose proof silent_subprocess_run_check as Hc.
  pose proof silent_print_stderr as Hp.
  unfold silent, try_except_CalledProcessError in *. prim. emits_tac.
Qed.

Lemma at_most_final_assembly scene_videos_ :
  at_most is_assembly 1 (final_assembly scene_videos_).
Proof.
  unfold final_assembly. destruct scene_videos_ as [|v vs].
  - eapply at_most_le; [apply at_most_quiet, silent_print | lia].
  - set (vids := v :: vs).
    do 4 (apply at_most_bind_l; [apply at_most_quiet, silent_print | intros _]).
    apply at_most_bind_r; [apply at_most_concatenate_videos|].
    intros assembled. apply at_most_quiet.
    pose proof silent_subprocess_run_text as Hr.
    pose proof silent_print as Hp.
    unfold silent in *. emits_tac.
Qed.

Lemma emits_final_assembly P scene_videos_ :
  around P (CallConcat scene_videos_ (path_join OUTPUT_DIR "final_video.mp4")) ->
  emits P (final_assembly scene_videos_).
Proof.
  intros HP. unfold final_assembly.
  pose proof (emits_concatenate_videos P _ _ HP) as Hc.
  destruct HP as (_ & _ & Hq).
  pose proof (fun cmd => emits_impl _ P _ Hq (silent_subprocess_run_text cmd))
    as Hr.
  pose proof (fun s => emits_impl _ P _ Hq (silent_print s)) as Hp.
  destruct scene_videos_ as [|v vs]; [apply Hp|].
  set (vids := v :: vs) in *. emits_tac.
Qed.

(** A turn of the scene loop that ends normally leaves the list of
    contributions as it was, or appends the captioned or the raw video of
    its scene. *)
Lemma process_scene_contribution s st w st1 :
  out_res (process_scene s st w) = Ok st1 ->
  scene_videos st1 = scene_videos st
  \/ scene_videos st1 = scene_videos st ++ [final_video s]
  \/ scene_videos st1 = scene_videos st ++ [raw_video s].
Proof.
  unfold process_scene.
  destruct (total_image_step s w) as [ready Hready].
  destruct (image_step s w) as [w1 t1 r] eqn:Himg.
  cbn [out_res] in Hready. subst r.
  rewrite (bind_ok _ _ _ _ _ _ Himg).
  destruct ready; cbn [negb]; [|cbn; intros [= <-]; now left].
  unfold scene_after_image.
  destruct (video_step s (use_veo st) w1) as [w2 t2 [[b flag]|e]] eqn:Hvid.
  - rewrite (bind_ok _ _ _ _ _ _ Hvid). cbn [fst snd].
    destruct b; cbn [negb]; [|cbn; intros [= <-]; now left].
    destruct (caption_step_run s (scene_videos st) w2)
      as (w3 & inner & captioned & _ & Hrun).
    rewrite (bind_ok _ _ _ _ _ _ Hrun). cbn. intros [= <-]. cbn.
    destruct captioned; auto.
  - rewrite (bind_exc _ _ _ _ _ _ Hvid). cbn. discriminate.
Qed.

Lemma main_loop_contributions scenes st w st' :
  out_res (main_loop scenes st w) = Ok st' ->
  exists l, scene_videos st' = scene_videos st ++ l /\ contributions scenes l.
Proof.
  revert st w. induction scenes as [|s rest IH]; intros st w; cbn [main_loop].
  - cbn. intros [= <-]. exists []. split; [now rewrite app_nil_r|constructor].
  - destruct (process_scene s st w) as [w1 t1 [st1|e]] eqn:Hps.
    + rewrite (bind_ok _ _ _ _ _ _ Hps). cbn [out_res]. intros Hrest.
      destruct (IH _ _ Hrest) as (l & Hl & Hc).
      assert (H1 : out_res (process_scene s st w) = Ok st1)
        by now rewrite Hps.
      apply process_scene_contribution in H1 as [H1 | [H1 | H1]];
        rewrite H1 in Hl.
      * exists l. split; [exact Hl | now constructor].
      * exists (final_video s :: l). rewrite <- app_assoc in Hl.
        split; [exact Hl | now constructor].
      * exists (raw_video s :: l). rewrite <- app_assoc in Hl.
        split; [exact Hl | now constructor].
    + rewrite (bind_exc _ _ _ _ _ _ Hps). cbn. discriminate.
Qed.

(** X13: what the assembly stage is given: whenever a run over [scenes] enters
    the assembly stage, its input is not empty and holds, in the order of
    the scenes, at most one video per scene, the captioned or the raw
    video of that scene; its output is the final video; and it is entered
    this once only. *)
Theorem assembly_input_follows_scenes (scenes : list scene) (w : World)
    (video_files : list string) (output_video : string) :
  EvEnter (CallConcat video_files output_video)
    ∈ out_trace (run_scenes scenes w) ->
  contributions scenes video_files
  /\ video_files <> []
  /\ output_video = path_join OUTPUT_DIR "final_video.mp4"
  /\ count is_assembly (out_trace (run_scenes scenes w)) = 1%nat.
Proof.
  set (c := CallConcat video_files output_video).
  set (P := fun ev : event => is_assembly ev = false).
  assert (HP : forall c', is_assembly (EvEnter c') = false -> around P c').
  { intros c' Hc'. repeat split; try assumption.
    exact not_assembly_is_ghost. }
  assert (Hloop : forall st, emits P (main_loop scenes st)).
  { apply emits_main_loop. intros s. repeat split; try reflexivity;
      exact not_assembly_is_ghost. }
  unfold run_scenes. intros Hin.
  destruct (main_loop scenes (RunState [] true) w) as [w1 t1 [st|e]] eqn:Hl.
  - rewrite (bind_ok _ _ _ _ _ _ Hl) in *. cbn [out_trace] in *.
    assert (Hres : out_res (main_loop scenes (RunState [] true) w) = Ok st)
      by now rewrite Hl.
    apply main_loop_contributions in Hres as (l & Hvids & Hc).
    cbn [scene_videos app] in Hvids. rewrite Hvids in *.
    pose proof (Hloop (RunState [] true) w) as Ht1.
    rewrite Hl in Ht1. cbn [out_trace] in Ht1.
    assert (Hin2 : EvEnter c ∈ out_trace (final_assembly l w1)).
    { apply elem_of_app in Hin as [Hin | Hin]; [|exact Hin].
      rewrite Forall_forall in Ht1. specialize (Ht1 _ Hin). discriminate. }
    set (Q := fun ev : event =>
                forall v o, ev = EvEnter (CallConcat v o) ->
                  v = l /\ o = path_join OUTPUT_DIR "final_video.mp4").
    assert (HQ : emits Q (final_assembly l)).
    { apply emits_final_assembly. repeat split.
      - now injection H as <- _.
      - now injection H as _ <-.
      - discriminate.
      - discriminate.
      - subst. discriminate.
      - subst. discriminate. }
    pose proof (HQ w1) as HQ1. rewrite Forall_forall in HQ1.
    destruct (HQ1 _ Hin2 video_files output_video eq_refl) as [-> ->].
    split; [exact Hc|]. split.
    { intros ->. cbn in Hin2. apply list_elem_of_singleton in Hin2.
      discriminate. }
    split; [reflexivity|].
    rewrite count_app, (count_none _ _ Ht1).
    pose proof (at_most_final_assembly l w1).
    pose proof (count_elem_of is_assembly (EvEnter c) _ eq_refl Hin2).
    cbn. lia.
  - rewrite (bind_exc _ _ _ _ _ _ Hl) in *. cbn [out_trace] in *.
    pose proof (Hloop (RunState [] true) w) as Ht1.
    rewrite Hl in Ht1. cbn [out_trace] in Ht1.
    rewrite Forall_forall in Ht1. specialize (Ht1 _ Hin). discriminate.
Qed.

(** X14: a scene whose image and raw video are both on disk is not generated
    again: its turn of the scene loop is one call of the caption stage on
    the existing raw video, whether or not a captioned video is on disk
    too; the animation flag stays as it was, and the turn contributes the
    captioned or the raw video. *)
Theorem existing_video_is_reused (s : scene) (st : run_state) (w : World) :
  path_exists w (raw_image s) = true ->
  path_exists w (raw_video s) = true ->
  exists w' inner captioned,
    Forall (fun ev => is_ghost ev = false) inner
    /\ process_scene s st w
       = Out w' (EvEnter (call_overlay s) :: inner
                 ++ [EvReturn (call_overlay s) captioned])
           (Ok (RunState
                  (scene_videos st
                   ++ [if captioned then final_video s else raw_video s])
                  (use_veo st))).
Proof.
  intros Himg Hvid.
  destruct (caption_step_run s (scene_videos st) w)
    as (w' & inner & captioned & Hinner & Hrun).
  exists w', inner, captioned. split; [exact Hinner|].
  unfold process_scene, image_step.
  rewrite bind_assoc, bind_exists_, Himg. cbn [negb].
  rewrite !bind_ret_l.
  unfold scene_after_image, video_step, veo_attempt, fallback_attempt.
  destruct (use_veo st);
    repeat first [ rewrite bind_assoc | rewrite bind_ret_l
                 | rewrite bind_exists_ | rewrite Hvid
                 | progress cbn [fst snd negb] ];
    rewrite (bind_ok _ _ _ _ _ _ Hrun); cbn; now rewrite app_nil_r.
Qed.

(** X15: a raw video that a failed animation left on disk is used as it is:
    when the animation stage returns [False] and the raw video exists
    afterwards, the fallback stage is not entered; the turn goes on with
    the caption stage on that file, contributes the result, and clears the
    animation flag. *)
Theorem leftover_video_skips_fallback (s : scene) (st : run_state)
    (w w1 : World) (t1 : list event) :
  path_exists w (raw_image s) = true ->
  use_veo st = true ->
  path_exists w (raw_video s) = false ->
  generate_video_from_image (raw_image s) (animation_prompt s) (raw_video s)
    3 w = Out w1 t1 (Ok false) ->
  path_exists w1 (raw_video s) = true ->
  exists w2 inner captioned,
    Forall (fun ev => is_ghost ev = false) inner
    /\ process_scene s st w
       = Out w2 (t1 ++ EvEnter (call_overlay s) :: inner
                 ++ [EvReturn (call_overlay s) captioned])
           (Ok (RunState
                  (scene_videos st
                   ++ [if captioned then final_video s else raw_video s])
                  false)).
Proof.
  intros Himg Hflag Hvid Hveo Hleft.
  destruct (caption_step_run s (scene_videos st) w1)
    as (w2 & inner & captioned & Hinner & Hrun).
  exists w2, inner, captioned. split; [exact Hinner|].
  unfold process_scene, image_step.
  rewrite bind_assoc, bind_exists_, Himg. cbn [negb].
  rewrite !bind_ret_l.
  unfold scene_after_image, video_step, veo_attempt, fallback_attempt.
  rewrite Hflag.
  repeat first [ rewrite bind_assoc | rewrite bind_ret_l
               | rewrite bind_exists_ | rewrite Hvid
               | progress cbn [fst snd negb] ].
  rewrite (bind_ok _ _ _ _ _ _ Hveo). cbn [negb].
  repeat first [ rewrite bind_assoc | rewrite bind_ret_l
               | rewrite bind_exists_ | rewrite Hleft
               | progress cbn [fst snd negb] ].
  rewrite (bind_ok _ _ _ _ _ _ Hrun). cbn. now rewrite app_nil_r.
Qed.

(** X16: a scene whose image cannot be generated is skipped: when the image is
    not on disk and the image stage returns [False], the turn is that one
    call; the contributions and the animation flag stay as they were, and
    the loop goes on with the next scene. *)
Theorem failed_image_skips_scene (s : scene) (rest : list scene)
    (st : run_state) (w : World) :
  path_exists w (raw_image s) = false ->
  out_res (generate_image (scene_prompt s) (raw_image s) 5 w) = Ok false ->
  let o := generate_image (scene_prompt s) (raw_image s) 5 w in
  let o' := main_loop rest st (out_world o) in
  process_scene s st w = Out (out_world o) (out_trace o) (Ok st)
  /\ main_loop (s :: rest) st w
     = Out (out_world o') (out_trace o ++ out_trace o') (out_res o').
Proof.
  intros Himg Hres o o'.
  assert (Hps : process_scene s st w = Out (out_world o) (out_trace o) (Ok st)).
  { unfold process_scene, image_step.
    rewrite bind_assoc, bind_exists_, Himg. cbn [negb].
    subst o. destruct (generate_image _ _ _ w) as [w1 t1 r] eqn:Hgen.
    cbn [out_res] in Hres. subst r.
    rewrite (bind_ok _ _ _ _ _ _ Hgen). cbn. now rewrite app_nil_r. }
  split; [exact Hps|].
  cbn [main_loop]. now rewrite (bind_ok _ _ _ _ _ _ Hps).
Qed.

(** X17: a scene for which the fallback stage returns [False] is skipped: with
    the image on disk, the animation disabled and no raw video on disk,
    the turn is that one call of the fallback stage; nothing is
    contributed, the caption stage is not entered, and the loop goes on
    with the next scene. *)
Theorem failed_fallback_skips_scene (s : scene) (rest : list scene)
    (st : run_state) (w : World) :
  path_exists w (raw_image s) = true ->
  use_veo st = false ->
  path_exists w (raw_video s) = false ->
  out_res (create_fallback_video (raw_image s) (raw_video s) 6.0%float
             (scene_camera s) w) = Ok false ->
  let o := create_fallback_video (raw_image s) (raw_video s) 6.0%float
             (scene_camera s) w in
  let o' := main_loop rest st (out_world o) in
  process_scene s st w = Out (out_world o) (out_trace o) (Ok st)
  /\ main_loop (s :: rest) st w
     = Out (out_world o') (out_trace o ++ out_trace o') (out_res o').
Proof.
  intros Himg Hflag Hvid Hres o o'.
  assert (Hps : process_scene s st w = Out (out_world o) (out_trace o) (Ok st)).
  { unfold process_scene, image_step.
    rewrite bind_assoc, bind_exists_, Himg. cbn [negb].
    rewrite !bind_ret_l.
    unfold scene_after_image, video_step, veo_attempt, fallback_attempt.
    rewrite Hflag.
    repeat first [ rewrite bind_assoc | rewrite bind_ret_l
                 | rewrite bind_exists_ | rewrite Hvid
                 | progress cbn [fst snd negb] ].
    subst o. destruct (create_fallback_video _ _ _ _ w) as [w1 t1 r] eqn:Hfb.
    cbn [out_res] in Hres. subst r.
    rewrite (bind_ok _ _ _ _ _ _ Hfb). cbn. rewrite app_nil_r.
    destruct st as [vids flag]. cbn in Hflag. now subst flag. }
  split; [exact Hps|].
  cbn [main_loop]. now rewrite (bind_ok _ _ _ _ _ _ Hps).
Qed.

(** X18: the report of the final step once the final video is assembled.  The
    probe is run once on the final video and its exit status is not looked
    at: when it prints nothing but white space, the run reports success
    with a duration of zero; when it prints a number, that duration; and
    when it prints anything else, the conversion error leaves the run after
    the final video has been assembled. *)
Theorem final_step_report (v : string) (vs : list string) (w w1 w2 : World)
    (t1 : list event) (result : completed) (out_text err_text : string) :
  let final_output := path_join OUTPUT_DIR "final_video.mp4" in
  let header :=
    [ EvPrint (nl +:+ rule); EvPrint "FINAL ASSEMBLY"; EvPrint rule;
      EvPrint ("Concatenating "
               +:+ str_of_Z (Z.of_nat (List.length (v :: vs)))
               +:+ " scenes...") ] in
  let report duration :=
    [ EvPrint (nl +:+ rule); EvPrint "SUCCESS!";
      EvPrint ("Output: " +:+ final_output);
      EvPrint ("Duration: " +:+ format_1f duration +:+ "s");
      EvPrint rule ] in
  concatenate_videos (v :: vs) final_output w = Out w1 t1 (Ok true) ->
  env_subprocess_run (ffprobe_cmd final_output) w1 = (w2, Ok result) ->
  decode (stdout result) = Ok out_text ->
  decode (stderr result) = Ok err_text ->
  final_assembly (v :: vs) w
  = if String.eqb (str_strip out_text) ""
    then Out w2 (header ++ t1 ++ EvRun (ffprobe_cmd final_output)
                 :: report 0%float) (Ok tt)
    else match float_of_str (str_strip out_text) with
         | Ok duration =>
             Out w2 (header ++ t1 ++ EvRun (ffprobe_cmd final_output)
                     :: report duration) (Ok tt)
         | Exc e =>
             Out w2 (header ++ t1 ++ [EvRun (ffprobe_cmd final_output)])
               (Exc e)
         end.
Proof.
  intros final_output header report Hcat Hrun Hout Herr.
  unfold final_assembly. fold final_output.
  unfold print, subprocess_run_text, subprocess_run.
  unfold bind, emit, call_env, lift_res, ret.
  rewrite Hcat, Hrun, Hout, Herr. cbn [fst snd].
  destruct (String.eqb (str_strip out_text) ""); [reflexivity|].
  destruct (float_of_str (str_strip out_text)); reflexivity.
Qed.

End Scenes.

(** ** Further runs on the scripted environment *)

Import Cases.

(** *** The remote stages *)

Lemma true_only_after_saving_witness :
  (exists t image,
     out_trace (generate_image "prompt" "output/scene_1_raw.png" 5 fresh)
     = EvEnter (CallGenerateImage "prompt" "output/scene_1_raw.png" 5)
       :: t ++ [ EvGenerateImages "prompt";
                 EvWriteBytes "output/scene_1_raw.png" image;
                 EvReturn (CallGenerateImage "prompt" "output/scene_1_raw.png"
                             5) true ])
  /\ exists t,
       out_trace (generate_video_from_image "output/scene_1_raw.png" "prompt"
                    "output/scene_1_raw.mp4" 3 resumed_world)
       = EvEnter (CallGenerateVideo "output/scene_1_raw.png" "prompt"
                    "output/scene_1_raw.mp4" 3)
         :: t ++ [ EvFilesDownload; EvVideoSave "output/scene_1_raw.mp4";
                   EvReturn (CallGenerateVideo "output/scene_1_raw.png"
                               "prompt" "output/scene_1_raw.mp4" 3) true ].
Proof.
  split.
  - exact (proj1 (true_only_after_saving (E:=env) "output/scene_1_raw.png"
                    "prompt" "output/scene_1_raw.png" 5 fresh) eq_refl).
  - exact (proj2 (true_only_after_saving (E:=env) "output/scene_1_raw.png"
                    "prompt" "output/scene_1_raw.mp4" 3 resumed_world)
             eq_refl).
Defined.

Lemma image_retry_schedule_witness :
  out_res (generate_image "prompt" "output/scene_2_raw.png" 5
             unavailable_world) = Ok false
  /\ sleeps (out_trace (generate_image "prompt" "output/scene_2_raw.png" 5
                          unavailable_world))
     = [5; 10; 20; 40; 60]
  /\ sleeps (out_trace (generate_image "prompt" "output/scene_2_raw.png" 5
                          rejecting_world))
     = [5; 5; 5; 5].
Proof.
  destruct (image_retry_schedule (E:=env)
              (fun w : world => forall n, image_answer w n = Exc unavailable)
              "prompt" "output/scene_2_raw.png" 5 false true
              unavailable_world
              (fun w' Hw' =>
                 ex_intro _ unavailable
                   (conj (Hw' (image_calls w'))
                      (conj eq_refl (conj eq_refl (fun _ => Hw')))))
              (fun n => eq_refl))
    as (Hres & Hsleeps).
  destruct (image_retry_schedule (E:=env)
              (fun w : world =>
                 forall n, image_answer w n = Exc invalid_argument)
              "prompt" "output/scene_2_raw.png" 5 false false
              rejecting_world
              (fun w' Hw' =>
                 ex_intro _ invalid_argument
                   (conj (Hw' (image_calls w'))
                      (conj eq_refl (conj eq_refl (fun _ => Hw')))))
              (fun n => eq_refl))
    as (_ & Hsleeps').
  split; [exact Hres|]. split; [exact Hsleeps | exact Hsleeps'].
Defined.

(** *** The fallback and assembly stages *)

Lemma fallback_stage_outcome_witness :
  let cmd := fallback_cmd "output/scene_1_raw.png" "output/scene_1_raw.mp4"
               (fallback_filter "slow zoom-in" "150") 6.0%float in
  let c := CallFallback "output/scene_1_raw.png" "output/scene_1_raw.mp4"
             6.0%float "slow zoom-in" in
  create_fallback_video "output/scene_1_raw.png" "output/scene_1_raw.mp4"
    6.0%float "slow zoom-in" failing_tool_world
  = Out failing_tool_world
      [ EvEnter c; EvRun cmd; EvPrint "  Error: Invalid argument";
        EvReturn c false ] (Ok false).
Proof.
  exact (fallback_stage_outcome (E:=env) "output/scene_1_raw.png"
           "output/scene_1_raw.mp4" 6.0%float "slow zoom-in"
           failing_tool_world failing_tool_world 150
           (Completed 1 [] (list_byte_of_string "Invalid argument"))
           eq_refl eq_refl).
Defined.

Lemma assembly_stage_outcome_witness :
  let clips := ["output/scene_1.mp4"; "output/scene_2_raw.mp4"] in
  let c := CallConcat clips "output/final_video.mp4" in
  let manifest := concat_manifest clips in
  let cmd := concat_cmd "output/concat.txt" "output/final_video.mp4" in
  out_trace (concatenate_videos clips "output/final_video.mp4" fresh)
  = [ EvEnter c; EvWriteText "output/concat.txt" manifest; EvRun cmd;
      EvUnlink "output/concat.txt"; EvReturn c true ]
  /\ out_trace (concatenate_videos clips "output/final_video.mp4"
                  failing_tool_world)
     = [ EvEnter c; EvWriteText "output/concat.txt" manifest; EvRun cmd;
         EvPrint "  Error: Invalid argument"; EvReturn c false ]
  /\ path_exists
       (out_world (concatenate_videos clips "output/final_video.mp4"
                     failing_tool_world)) "output/concat.txt" = true.
Proof.
  cbv zeta. split; [|split].
  - exact (f_equal out_trace
             (assembly_stage_outcome (E:=env)
                ["output/scene_1.mp4"; "output/scene_2_raw.mp4"]
                "output/final_video.mp4" fresh _ _ _ eq_refl eq_refl)).
  - exact (f_equal out_trace
             (assembly_stage_outcome (E:=env)
                ["output/scene_1.mp4"; "output/scene_2_raw.mp4"]
                "output/final_video.mp4" failing_tool_world _ _ _
                eq_refl eq_refl)).
  - vm_compute. reflexivity.
Defined.

(** *** The credential lookup *)

Lemma first_key_line_decides_witness :
  Credential.find_api_key host_with_file = Ok (Some "abc123").
Proof.
  apply (first_key_line_decides (R:=runtime) host_with_file
           ["/home/u/.claude/.env"]
           [ "/home/u/.claude/skills/ai-multimodal/.env";
             "/srv/app/.claude/.env" ]
           "/home/u/.claude/skills/.env"
           ["# keys" +:+ nl] (quote +:+ "abc123" +:+ quote +:+ nl)
           (Credential.Line ("GEMINI_API_KEY=later" +:+ nl) Credential.Eof)
           (or_introl eq_refl) eq_refl).
  - apply List.Forall_cons; [left; reflexivity | apply List.Forall_nil].
  - reflexivity.
  - reflexivity.
  - apply List.Forall_cons; [reflexivity | apply List.Forall_nil].
Defined.

Lemma no_key_anywhere_witness :
  Credential.find_api_key host_bare = Ok None.
Proof.
  apply (no_key_anywhere (R:=runtime) host_bare
           (or_intror eq_refl)).
  repeat constructor.
Defined.

Lemma unreadable_file_stops_lookup_witness :
  Credential.find_api_key host_unreadable
  = Exc (PyError "PermissionError"
           "[Errno 13] Permission denied: '/home/u/.claude/.env'").
Proof.
  exact (unreadable_file_stops_lookup (R:=runtime) host_unreadable
           []
           [ "/home/u/.claude/skills/.env";
             "/home/u/.claude/skills/ai-multimodal/.env";
             "/srv/app/.claude/.env" ]
           "/home/u/.claude/.env" [] _ (or_introl eq_refl) eq_refl
           (List.Forall_nil _) eq_refl (or_introl eq_refl)).
Defined.

(** *** The scene loop *)

Lemma assembly_input_follows_scenes_witness :
  contributions SCENES
    [ "output/scene_1_raw.mp4"; "output/scene_2_raw.mp4";
      "output/scene_3_raw.mp4"; "output/scene_4_raw.mp4" ]
  /\ count is_assembly (out_trace (run_scenes SCENES no_captions_world))
     = 1%nat.
Proof.
  assert (Hin : EvEnter (CallConcat
                           [ "output/scene_1_raw.mp4";
                             "output/scene_2_raw.mp4";
                             "output/scene_3_raw.mp4";
                             "output/scene_4_raw.mp4" ]
                           "output/final_video.mp4")
                ∈ out_trace (run_scenes (E:=env) SCENES no_captions_world))
    by find_elem.
  destruct (assembly_input_follows_scenes (E:=env) SCENES no_captions_world
              _ _ Hin) as (Hc & _ & _ & Hcount).
  split; [exact Hc | exact Hcount].
Defined.

Lemma existing_video_is_reused_witness :
  exists w' inner captioned,
    process_scene scene_1 (RunState [] true) video_resumed_world
    = Out w' (EvEnter (call_overlay scene_1) :: inner
              ++ [EvReturn (call_overlay scene_1) captioned])
        (Ok (RunState
               [if captioned then final_video scene_1 else raw_video scene_1]
               true)).
Proof.
  destruct (existing_video_is_reused (E:=env) scene_1 (RunState [] true)
              video_resumed_world eq_refl eq_refl)
    as (w' & inner & captioned & _ & Hrun).
  exists w', inner, captioned. exact Hrun.
Defined.

Lemma leftover_video_skips_fallback_witness :
  exists w2 t1 inner captioned,
    process_scene (E:=env_disk_full) scene_1 (RunState [] true) resumed_world
    = Out (E:=env_disk_full) w2
        (t1 ++ EvEnter (call_overlay (E:=env_disk_full) scene_1) :: inner
         ++ [EvReturn (call_overlay (E:=env_disk_full) scene_1) captioned])
        (Ok (RunState
               [if captioned then "output/scene_1.mp4"
                else "output/scene_1_raw.mp4"] false))
    /\ Forall (fun ev => forall image_path output_video duration motion,
                 ev <> EvEnter (CallFallback image_path output_video duration
                                  motion)) t1.
Proof.
  destruct (generate_video_from_image (E:=env_disk_full)
              (raw_image (E:=env_disk_full) scene_1)
              (animation_prompt scene_1)
              (raw_video (E:=env_disk_full) scene_1) 3 resumed_world)
    as [w1 t1 r] eqn:Hveo.
  assert (Hr : r = Ok false).
  { apply (f_equal (out_res (E:=env_disk_full))) in Hveo.
    cbn [out_res] in Hveo. rewrite <- Hveo. vm_compute. reflexivity. }
  assert (Hleft : path_exists (Env:=env_disk_full) w1
                    (raw_video (E:=env_disk_full) scene_1) = true).
  { apply (f_equal (out_world (E:=env_disk_full))) in Hveo.
    cbn [out_world] in Hveo. rewrite <- Hveo. vm_compute. reflexivity. }
  assert (Ht1 : Forall (fun ev => forall image_path output_video duration
                                    motion,
                          ev <> EvEnter (CallFallback image_path output_video
                                           duration motion)) t1).
  { apply (f_equal (out_trace (E:=env_disk_full))) in Hveo.
    cbn [out_trace] in Hveo. rewrite <- Hveo.
    apply (emits_generate_video_from_image (E:=env_disk_full)).
    repeat split; try discriminate. intros ev Hev ? ? ? ? ->. discriminate. }
  subst r.
  destruct (leftover_video_skips_fallback (E:=env_disk_full) scene_1
              (RunState [] true) resumed_world w1 t1 eq_refl eq_refl eq_refl
              Hveo Hleft)
    as (w2 & inner & captioned & _ & Hrun).
  exists w2, t1, inner, captioned. split; [exact Hrun | exact Ht1].
Defined.

Lemma failed_image_skips_scene_witness :
  path_exists rejecting_world (raw_image scene_1) = false
  /\ process_scene scene_1 (RunState [] true) rejecting_world
     = Out (out_world (generate_image (scene_prompt scene_1)
                         (raw_image scene_1) 5 rejecting_world))
         (out_trace (generate_image (scene_prompt scene_1)
                       (raw_image scene_1) 5 rejecting_world))
         (Ok (RunState [] true)).
Proof.
  split; [reflexivity|].
  assert (Hres : out_res (generate_image (E:=env) (scene_prompt scene_1)
                            (raw_image scene_1) 5 rejecting_world) = Ok false)
    by (vm_compute; reflexivity).
  exact (proj1 (failed_image_skips_scene (E:=env) scene_1 [scene_2]
                  (RunState [] true) rejecting_world eq_refl Hres)).
Defined.

Lemma failed_fallback_skips_scene_witness :
  process_scene scene_1 (RunState [] false) failing_tool_world
  = Out (out_world (create_fallback_video (raw_image scene_1)
                      (raw_video scene_1) 6.0%float (scene_camera scene_1)
                      failing_tool_world))
      (out_trace (create_fallback_video (raw_image scene_1)
                    (raw_video scene_1) 6.0%float (scene_camera scene_1)
                    failing_tool_world))
      (Ok (RunState [] false)).
Proof.
  assert (Hres : out_res (create_fallback_video (E:=env) (raw_image scene_1)
                            (raw_video scene_1) 6.0%float
                            (scene_camera scene_1) failing_tool_world)
                 = Ok false)
    by (vm_compute; reflexivity).
  exact (proj1 (failed_fallback_skips_scene (E:=env) scene_1 [scene_2]
                  (RunState [] false) failing_tool_world eq_refl eq_refl
                  eq_refl Hres)).
Defined.

Lemma final_step_report_witness :
  out_res (run_scenes [scene_1] no_probe_world) = Ok tt
  /\ exists t,
       out_trace (final_assembly ["output/scene_1.mp4"]
                    (out_world (main_loop [scene_1] (RunState [] true)
                                  no_probe_world)))
       = t ++ [ EvRun (ffprobe_cmd "output/final_video.mp4");
                EvPrint (nl +:+ rule); EvPrint "SUCCESS!";
                EvPrint "Output: output/final_video.mp4";
                EvPrint "Duration: 0.0s"; EvPrint rule ].
Proof.
  split; [vm_compute; reflexivity|].
  destruct (concatenate_videos (E:=env) ["output/scene_1.mp4"]
              "output/final_video.mp4"
              (out_world (main_loop (E:=env) [scene_1] (RunState [] true)
                            no_probe_world)))
    as [w1 t1 r] eqn:Hcat.
  assert (Hr : r = Ok true).
  { apply (f_equal (out_res (E:=env))) in Hcat. cbn [out_res] in Hcat.
    rewrite <- Hcat. vm_compute. reflexivity. }
  assert (Hw : w1 = out_world (concatenate_videos (E:=env)
                                 ["output/scene_1.mp4"]
                                 "output/final_video.mp4"
                                 (out_world (main_loop (E:=env) [scene_1]
                                               (RunState [] true)
                                               no_probe_world)))).
  { now rewrite Hcat. }
  subst r.
  pose proof (final_step_report (E:=env) "output/scene_1.mp4" [] _ w1 w1 t1
                (Completed 1 [] (list_byte_of_string "Invalid data"))
                "" "Invalid data" Hcat) as Hfinal.
  cbv zeta in Hfinal. rewrite Hfinal.
  - eexists. cbn [out_trace]. rewrite app_assoc. reflexivity.
  - rewrite Hw. vm_compute. reflexivity.
  - reflexivity.
  - reflexivity.
Defined.

Lemma polling_stops_at_completion_witness :
  poll (pending 2) fresh
  = Out fresh [EvSleep 10; EvOperationsGet; EvSleep 10; EvOperationsGet]
      (Ok [0%nat])
  /\ poll (E:=env) (OpPending (fun w => (w, Exc unavailable))) fresh
     = Out fresh [EvSleep 10; EvOperationsGet] (Exc unavailable).
Proof.
  split.
  - apply (polling_stops_at_completion (E:=env) (pending 2) fresh fresh 2).
    cbn [pending]. eapply (answers_pending (E:=env)); [reflexivity|].
    cbn [pending]. eapply (answers_pending (E:=env)); [reflexivity|].
    apply (answers_done (E:=env)).
  - apply (polling_stops_at_completion (E:=env) _ fresh fresh 1).
    now apply (answers_raise (E:=env)).
Defined.
